(** * Qutrit operators of [pennylane.ops.qutrit]

    A shallow embedding of [non_parametric_ops.py] and
    [state_preparation.py], followed by the properties of the gates and
    of the two state preparations.

    Conventions of the embedding.
    - Python objects that reach a [subspace], [control_value] or exponent
      argument are values of [Py.value]; Python exceptions are values of
      [Py.exn] and a call that may raise returns a [Py.result].
    - numpy's [int64] arrays have entries in [Z]; its [float64] and
      [complex128] arrays have entries in [R] and in [C = R * R]: the
      floating-point numbers are read as the exact real and complex
      numbers they stand for, so [np.exp], [np.sqrt] and [np.pi] are the
      mathematical functions and constant.
    - a two-dimensional array is a list of rows; an n-dimensional array is
      a shape with its row-major data. *)

From Stdlib Require Import ZArith QArith Qround Reals Lra Lia List Permutation String.
From stdpp Require Import base list strings gmap.

(** ** The Python runtime the gates rely on *)

Module Py.

Inductive exn : Type :=
| ValueError (msg : string)
| TypeError
| IndexError
| WireError (msg : string)
| AdjointUndefinedError.

Inductive result (A : Type) : Type :=
| Ok (a : A)
| Raise (e : exn).
Arguments Ok {A} a.
Arguments Raise {A} e.

Definition bind {A B : Type} (m : result A) (k : A -> result B) : result B :=
  match m with
  | Ok a => k a
  | Raise e => Raise e
  end.

Definition raises {A : Type} (m : result A) : bool :=
  match m with Ok _ => false | Raise _ => true end.

(** The objects callers pass: [None], an [int], a [float] (a rational
    here), or a list or tuple of [int]s. *)
Inductive value : Type :=
| PyNone
| PyInt (z : Z)
| PyFloat (q : Q)
| PySeq (l : list Z).

(** [hasattr(x, "__iter__")] *)
Definition hasattr_iter (x : value) : bool :=
  match x with PySeq _ => true | _ => false end.

(** [isinstance(x, int)] *)
Definition isinstance_int (x : value) : bool :=
  match x with PyInt _ => true | _ => false end.

(** [len(x)] *)
Definition len (x : value) : result nat :=
  match x with PySeq l => Ok (length l) | _ => Raise TypeError end.

(** The elements an iteration over [x] yields. *)
Definition iter (x : value) : result (list Z) :=
  match x with PySeq l => Ok l | _ => Raise TypeError end.

(** Position of index [i] in a sequence of length [n]: negative indices
    count from the end, anything else out of range raises. *)
Definition norm_index (n : nat) (i : Z) : result nat :=
  if ((0 <=? i) && (i <? Z.of_nat n))%Z then Ok (Z.to_nat i)
  else if ((- Z.of_nat n <=? i) && (i <? 0))%Z then Ok (Z.to_nat (i + Z.of_nat n))
  else Raise IndexError.

(** [l[i]] *)
Definition list_getitem {A : Type} (l : list A) (i : Z) : result A :=
  bind (norm_index (length l) i)
       (fun k => match l !! k with Some a => Ok a | None => Raise IndexError end).

(** [l[i] = v] *)
Definition list_setitem {A : Type} (l : list A) (i : Z) (v : A) : result (list A) :=
  bind (norm_index (length l) i) (fun k => Ok (<[k := v]> l)).

(** [x[i]] *)
Definition getitem (x : value) (i : Z) : result Z :=
  match x with PySeq l => list_getitem l i | _ => Raise TypeError end.

(** [x == n] for an [int] literal [n]. *)
Definition eq_int (x : value) (n : Z) : bool :=
  match x with
  | PyInt z => (z =? n)%Z
  | PyFloat q => Qeq_bool q (inject_Z n)
  | _ => false
  end.

(** [x % m] for an [int] literal [m > 0]: the result has the sign of
    [m]; on a float it is [x - m * floor(x / m)]. *)
Definition mod_int (x : value) (m : Z) : result value :=
  match x with
  | PyInt z => Ok (PyInt (z mod m))
  | PyFloat q => Ok (PyFloat (Qred (q - inject_Z m * inject_Z (Qfloor (q / inject_Z m)))))
  | _ => Raise TypeError
  end.

(** [int(x)] *)
Definition int (x : value) : result Z :=
  match x with
  | PyInt z => Ok z
  | PyFloat q => Ok (Z.quot (Qnum q) (Zpos (Qden q)))
  | _ => Raise TypeError
  end.

(** [sorted(l)] *)
Fixpoint insert_sorted (x : Z) (l : list Z) : list Z :=
  match l with
  | [] => [x]
  | y :: l' => if (x <=? y)%Z then x :: l else y :: insert_sorted x l'
  end.

Definition sorted (l : list Z) : list Z := foldr insert_sorted [] l.

(** [l.index(x)] *)
Fixpoint index {A : Type} `{EqDecision A} (l : list A) (x : A) : result nat :=
  match l with
  | [] => Raise (ValueError "x not in list")
  | y :: l' => if decide (y = x) then Ok 0%nat else bind (index l' x) (fun k => Ok (S k))
  end.

(** [l.pop()], keeping only the popped element. *)
Definition pop {A : Type} (l : list A) : result A :=
  match last l with Some a => Ok a | None => Raise IndexError end.

End Py.

Import Py.

#[export] Instance result_bind : MBind Py.result :=
  fun A B k m => Py.bind m k.
#[export] Instance result_ret : MRet Py.result := @Py.Ok.

(** ** Numbers: the entries of numpy arrays *)

(** [complex128], read exactly: real and imaginary part. *)
Definition complex : Type := (R * R)%type.

Module Cx.

Definition of_R (x : R) : complex := (x, 0%R).
Definition zero : complex := of_R 0.
Definition one : complex := of_R 1.
(** The literal [1j]. *)
Definition j : complex := (0%R, 1%R).
Definition add (a b : complex) : complex := ((a.1 + b.1)%R, (a.2 + b.2)%R).
Definition opp (a : complex) : complex := ((- a.1)%R, (- a.2)%R).
Definition mul (a b : complex) : complex :=
  ((a.1 * b.1 - a.2 * b.2)%R, (a.1 * b.2 + a.2 * b.1)%R).
(** Division of a complex number by a real one. *)
Definition div_R (a : complex) (r : R) : complex := ((a.1 / r)%R, (a.2 / r)%R).
(** [np.exp(1j * t)] for a real [t]. *)
Definition expi (t : R) : complex := (cos t, sin t).
(** [a ** n] for an [int] literal [n >= 0]. *)
Fixpoint pow (a : complex) (n : nat) : complex :=
  match n with
  | O => one
  | S n' => mul a (pow a n')
  end.

End Cx.

(** What a dtype offers to the array operations below. *)
Class Scalar (A : Type) : Type := {
  s_zero : A;
  s_one : A;
  s_add : A -> A -> A;
  s_mul : A -> A -> A
}.

#[export] Instance Scalar_Z : Scalar Z :=
  {| s_zero := 0%Z; s_one := 1%Z; s_add := Z.add; s_mul := Z.mul |}.
#[export] Instance Scalar_R : Scalar R :=
  {| s_zero := 0%R; s_one := 1%R; s_add := Rplus; s_mul := Rmult |}.
#[export] Instance Scalar_complex : Scalar complex :=
  {| s_zero := Cx.zero; s_one := Cx.one; s_add := Cx.add; s_mul := Cx.mul |}.

(** ** Two-dimensional arrays *)

Definition matrix (A : Type) : Type := list (list A).

Module np.
Section Arrays.
Context {A : Type} `{Scalar A}.

(** [np.zeros((n, m))] *)
Definition zeros (n m : nat) : matrix A := replicate n (replicate m s_zero).

(** [np.eye(n)] *)
Definition eye (n : nat) : matrix A :=
  map (fun i => map (fun k => if (i =? k)%nat then s_one else s_zero) (seq 0 n)) (seq 0 n).

(** [np.diag(d)] for a one-dimensional [d] *)
Definition diag (d : list A) : matrix A :=
  imap (fun i x => <[i := x]> (replicate (length d) s_zero)) d.

(** [mat[i, k] = v] *)
Definition setitem (mat : matrix A) (i k : Z) (v : A) : result (matrix A) :=
  r ← norm_index (length mat) i;
  match mat !! r with
  | None => Raise IndexError
  | Some row =>
      c ← norm_index (length row) k;
      Ok (<[r := <[c := v]> row]> mat)
  end.

(** [mat[r0:r0+h, c0:c0+w] = blk] for a block [blk] of [h] rows and [w]
    columns that lies inside [mat]. *)
Definition set_block (mat : matrix A) (r0 c0 : nat) (blk : matrix A) : matrix A :=
  imap (fun i row =>
          match blk !! (i - r0)%nat with
          | Some brow =>
              if (r0 <=? i)%nat
              then imap (fun k x =>
                           match brow !! (k - c0)%nat with
                           | Some b => if (c0 <=? k)%nat then b else x
                           | None => x
                           end) row
              else row
          | None => row
          end) mat.

(** [c * mat] for a scalar [c] *)
Definition scale (c : A) (mat : matrix A) : matrix A :=
  map (map (s_mul c)) mat.

(** The entry at row [i], column [k] (zero outside the array). *)
Definition entry (mat : matrix A) (i k : nat) : A :=
  match mat !! i with
  | Some row => default s_zero (row !! k)
  | None => s_zero
  end.

Definition column (mat : matrix A) (k : nat) : list A :=
  map (fun row => default s_zero (row !! k)) mat.

Definition dot (u v : list A) : A :=
  foldr s_add s_zero (zip_with s_mul u v).

(** The matrix product [a @ b]. *)
Definition matmul (a b : matrix A) : matrix A :=
  map (fun row => map (fun k => dot row (column b k))
                      (seq 0 (length (default [] (head b))))) a.

(** The matrix-vector product. *)
Definition matvec (a : matrix A) (v : list A) : list A :=
  map (fun row => dot row v) a.

End Arrays.
End np.

(** ** [non_parametric_ops.py] *)

(** [OMEGA = np.exp(2 * np.pi * 1j / 3)] *)
Definition OMEGA : complex := Cx.expi (2 * PI / 3).

(** [ZETA = OMEGA ** (1 / 3)]: the principal cube root, whose argument is
    a third of the argument [2 * PI / 3] of [OMEGA]. *)
Definition ZETA : complex := Cx.expi (2 * PI / 3 * (1 / 3)).

Definition subspace_sequence_msg : string :=
  "The subspace must be a sequence with two unique elements from the set {0, 1, 2}.".
Definition subspace_elements_msg : string :=
  "Elements of the subspace must be 0, 1, or 2.".
Definition subspace_unique_msg : string :=
  "Elements of subspace list must be unique.".

(** [s in {0, 1, 2}] *)
Definition in_012 (s : Z) : bool := ((s =? 0) || (s =? 1) || (s =? 2))%Z.

(** The three checks that open [compute_matrix] of [TX], [TY], [TZ] and
    [TH], each of which repeats them word for word; what comes back is the
    list of the elements of [subspace]. *)
Definition subspace_checks (subspace : value) : result (list Z) :=
  n ← Py.len subspace;
  if negb (n =? 2)%nat then Raise (ValueError subspace_sequence_msg) else
  elems ← Py.iter subspace;
  if negb (forallb in_012 elems) then Raise (ValueError subspace_elements_msg) else
  a ← Py.getitem subspace 0;
  b ← Py.getitem subspace 1;
  if (a =? b)%Z then Raise (ValueError subspace_unique_msg) else
  Ok elems.

(** [list({0, 1, 2}.difference(set(subspace))).pop()] *)
Definition unused_index (subspace : list Z) : result Z :=
  Py.pop (filter (fun x => x ∉ subspace) [0; 1; 2]%Z).

(** *** TShift, TClock, TAdd, TSWAP *)

Definition TShift_compute_matrix : matrix Z :=
  [[0; 0; 1]; [1; 0; 0]; [0; 1; 0]]%Z.

Definition TShift_compute_eigvals : list complex :=
  [OMEGA; Cx.pow OMEGA 2; Cx.one].

Definition TClock_compute_matrix : matrix complex :=
  np.diag [Cx.one; OMEGA; Cx.pow OMEGA 2].

Definition TClock_compute_eigvals : list complex :=
  [Cx.one; OMEGA; Cx.pow OMEGA 2].

Definition TAdd_compute_matrix : matrix Z :=
  [[1; 0; 0; 0; 0; 0; 0; 0; 0];
   [0; 1; 0; 0; 0; 0; 0; 0; 0];
   [0; 0; 1; 0; 0; 0; 0; 0; 0];
   [0; 0; 0; 0; 0; 1; 0; 0; 0];
   [0; 0; 0; 1; 0; 0; 0; 0; 0];
   [0; 0; 0; 0; 1; 0; 0; 0; 0];
   [0; 0; 0; 0; 0; 0; 0; 1; 0];
   [0; 0; 0; 0; 0; 0; 0; 0; 1];
   [0; 0; 0; 0; 0; 0; 1; 0; 0]]%Z.

Definition TSWAP_compute_matrix : matrix Z :=
  [[1; 0; 0; 0; 0; 0; 0; 0; 0];
   [0; 0; 0; 1; 0; 0; 0; 0; 0];
   [0; 0; 0; 0; 0; 0; 1; 0; 0];
   [0; 1; 0; 0; 0; 0; 0; 0; 0];
   [0; 0; 0; 0; 1; 0; 0; 0; 0];
   [0; 0; 0; 0; 0; 0; 0; 1; 0];
   [0; 0; 1; 0; 0; 0; 0; 0; 0];
   [0; 0; 0; 0; 0; 1; 0; 0; 0];
   [0; 0; 0; 0; 0; 0; 0; 0; 1]]%Z.

(** *** The subspace gates: [compute_matrix]

    An argument with a Python default is an [option]: [None] is the call
    that leaves it out. *)

Definition TX_compute_matrix (subspace : option value) : result (matrix R) :=
  let subspace := default (PySeq [0; 1]%Z) subspace in
  elems ← subspace_checks subspace;
  let subspace := Py.sorted elems in
  let mat : matrix R := np.zeros 3 3 in
  unused_ind ← unused_index subspace;
  s0 ← Py.list_getitem subspace 0;
  s1 ← Py.list_getitem subspace 1;
  mat ← np.setitem mat s0 s1 1%R;
  mat ← np.setitem mat s1 s0 1%R;
  mat ← np.setitem mat unused_ind unused_ind 1%R;
  Ok mat.

Definition TY_compute_matrix (subspace : option value) : result (matrix complex) :=
  let subspace := default (PySeq [0; 1]%Z) subspace in
  elems ← subspace_checks subspace;
  let subspace := Py.sorted elems in
  let mat : matrix complex := np.zeros 3 3 in
  unused_ind ← unused_index subspace;
  s0 ← Py.list_getitem subspace 0;
  s1 ← Py.list_getitem subspace 1;
  mat ← np.setitem mat s0 s1 (Cx.opp Cx.j);
  mat ← np.setitem mat s1 s0 Cx.j;
  mat ← np.setitem mat unused_ind unused_ind Cx.one;
  Ok mat.

Definition TZ_compute_matrix (subspace : option value) : result (matrix R) :=
  let subspace := default (PySeq [0; 1]%Z) subspace in
  subspace ← subspace_checks subspace;
  let mat : matrix R := np.eye 3 in
  s1 ← Py.list_getitem subspace 1;
  mat ← np.setitem mat s1 s1 (-1)%R;
  Ok mat.

Definition TH_compute_matrix (subspace : option value) : result (matrix complex) :=
  let subspace := default (PySeq [0; 1]%Z) subspace in
  elems ← subspace_checks subspace;
  let subspace := Py.sorted elems in
  let mat : matrix complex := np.eye 3 in
  unused_ind ← unused_index subspace;
  s0 ← Py.list_getitem subspace 0;
  s1 ← Py.list_getitem subspace 1;
  mat ← np.setitem mat unused_ind unused_ind (Cx.of_R (sqrt 2));
  mat ← np.setitem mat s0 s1 Cx.one;
  mat ← np.setitem mat s1 s0 Cx.one;
  mat ← np.setitem mat s1 s1 (Cx.opp Cx.one);
  Ok (map (map (fun x => Cx.div_R x (sqrt 2))) mat).

(** [TCNOT.compute_matrix]: the checks on [subspace] are left to
    [TX.compute_matrix]; [control_value] is only compared with [0] and
    [1]. *)
Definition TCNOT_compute_matrix (subspace : option value) (control_value : option value)
  : result (matrix R) :=
  let subspace := default (PySeq [0; 1]%Z) subspace in
  let control_value := default (PyInt 2) control_value in
  op_mat ← TX_compute_matrix (Some subspace);
  let mat : matrix R := np.eye 9 in
  if Py.eq_int control_value 0 then Ok (np.set_block mat 0 0 op_mat)
  else if Py.eq_int control_value 1 then Ok (np.set_block mat 3 3 op_mat)
  else Ok (np.set_block mat 6 6 op_mat).

(** The two branches of [TS.compute_matrix] and of [TT.compute_matrix]:
    the matrix with the fixed phases, returned when [subspace is None],
    and the identity with the two diagonal entries of the subspace set. *)
Definition TS_fixed_phase_matrix : matrix complex :=
  np.scale (Cx.pow ZETA 8) (np.diag [Cx.one; Cx.one; OMEGA]).

Definition TS_subspace_matrix (subspace : value) : result (matrix complex) :=
  let mat : matrix complex := np.eye 3 in
  s0 ← Py.getitem subspace 0;
  mat ← np.setitem mat s0 s0 Cx.one;
  s1 ← Py.getitem subspace 1;
  mat ← np.setitem mat s1 s1 Cx.j;
  Ok mat.

Definition TS_compute_matrix (subspace : option value) : result (matrix complex) :=
  match default PyNone subspace with
  | PyNone => Ok TS_fixed_phase_matrix
  | subspace => TS_subspace_matrix subspace
  end.

Definition TT_fixed_phase_matrix : matrix complex :=
  np.diag [Cx.one; ZETA; Cx.pow ZETA 8].

Definition TT_subspace_matrix (subspace : value) : result (matrix complex) :=
  let mat : matrix complex := np.eye 3 in
  s0 ← Py.getitem subspace 0;
  mat ← np.setitem mat s0 s0 Cx.one;
  s1 ← Py.getitem subspace 1;
  mat ← np.setitem mat s1 s1 (Cx.expi (PI / 4));
  Ok mat.

Definition TT_compute_matrix (subspace : option value) : result (matrix complex) :=
  match default PyNone subspace with
  | PyNone => Ok TT_fixed_phase_matrix
  | subspace => TT_subspace_matrix subspace
  end.

(** *** Operator instances

    An instance of a subspace gate keeps the wires, the [_subspace] it was
    given and the [_hyperparameters] dictionary. [Operation.__init__] of
    the base class, which is not part of these files, is the parameter
    [Operation_init]. *)

Record SubspaceOp (W : Type) : Type := {
  wires : list W;
  _subspace : value;
  _hyperparameters : gmap string value
}.
Arguments wires {W} _.
Arguments _subspace {W} _.
Arguments _hyperparameters {W} _.

Record ControlledOp (W : Type) : Type := {
  c_wires : list W;
  c_subspace : value;
  c_control_value : value;
  c_hyperparameters : gmap string value
}.
Arguments c_wires {W} _.
Arguments c_subspace {W} _.
Arguments c_control_value {W} _.
Arguments c_hyperparameters {W} _.

(** [tuple(sorted(s))] *)
Definition tuple_sorted (s : value) : result value :=
  l ← Py.iter s; Ok (PySeq (Py.sorted l)).

(** [tuple(s)] *)
Definition tuple_of (s : value) : result value :=
  l ← Py.iter s; Ok (PySeq l).

Section Operators.
Context {W : Type}.
Variable Operation_init : list W -> result unit.

(** The [subspace] property of each class. *)
Definition TX_subspace (self : SubspaceOp W) : result value := tuple_sorted (_subspace self).
Definition TY_subspace (self : SubspaceOp W) : result value := tuple_sorted (_subspace self).
Definition TZ_subspace (self : SubspaceOp W) : result value := tuple_of (_subspace self).
Definition TH_subspace (self : SubspaceOp W) : result value := tuple_sorted (_subspace self).
Definition TS_subspace (self : SubspaceOp W) : result value := tuple_sorted (_subspace self).
Definition TT_subspace (self : SubspaceOp W) : result value := tuple_sorted (_subspace self).
Definition TCNOT_subspace (self : ControlledOp W) : result value :=
  tuple_sorted (c_subspace self).
Definition TCNOT_control_value (self : ControlledOp W) : result value :=
  z ← Py.int (c_control_value self); Ok (PyInt z).

(** The body shared by [__init__] of [TX], [TY], [TZ], [TH], [TS] and
    [TT]: they differ in the default of [subspace] and in the [subspace]
    property read for the hyperparameters. *)
Definition subspace_init (property : SubspaceOp W -> result value)
    (wires0 : list W) (subspace : value) : result (SubspaceOp W) :=
  if negb (Py.hasattr_iter subspace) then Raise (ValueError subspace_sequence_msg) else
  let self := {| wires := []; _subspace := subspace; _hyperparameters := ∅ |} in
  sub ← property self;
  _ ← Operation_init wires0;
  Ok {| wires := wires0; _subspace := subspace;
        _hyperparameters := {[ "subspace"%string := sub ]} |}.

Definition TX_init (wires0 : list W) (subspace : option value) :=
  subspace_init TX_subspace wires0 (default (PySeq [0; 1]%Z) subspace).
Definition TY_init (wires0 : list W) (subspace : option value) :=
  subspace_init TY_subspace wires0 (default (PySeq [0; 1]%Z) subspace).
Definition TZ_init (wires0 : list W) (subspace : option value) :=
  subspace_init TZ_subspace wires0 (default (PySeq [0; 1]%Z) subspace).
Definition TH_init (wires0 : list W) (subspace : option value) :=
  subspace_init TH_subspace wires0 (default (PySeq [0; 1]%Z) subspace).
Definition TS_init (wires0 : list W) (subspace : option value) :=
  subspace_init TS_subspace wires0 (default PyNone subspace).
Definition TT_init (wires0 : list W) (subspace : option value) :=
  subspace_init TT_subspace wires0 (default PyNone subspace).

Definition TCNOT_init (wires0 : list W) (subspace control_value : option value)
  : result (ControlledOp W) :=
  let subspace := default (PySeq [0; 1]%Z) subspace in
  let control_value := default (PyInt 2) control_value in
  if negb (Py.hasattr_iter subspace) then Raise (ValueError subspace_sequence_msg) else
  let self := {| c_wires := []; c_subspace := subspace;
                 c_control_value := control_value; c_hyperparameters := ∅ |} in
  sub ← TCNOT_subspace self;
  cv ← TCNOT_control_value self;
  _ ← Operation_init wires0;
  Ok {| c_wires := wires0; c_subspace := subspace; c_control_value := control_value;
        c_hyperparameters :=
          <[ "control_value"%string := cv ]> {[ "subspace"%string := sub ]} |}.

End Operators.

(** Modelled from the spec: [Operator.matrix] of the base class, which is
    not among these source files. "Derived matrices ... are computed on
    demand" as "pure functions of the descriptor": the instance calls its
    class's [compute_matrix] with the stored hyperparameters as keyword
    arguments, and a keyword that is not stored takes its default. *)
Definition TX_matrix {W} (self : SubspaceOp W) : result (matrix R) :=
  TX_compute_matrix (_hyperparameters self !! "subspace"%string).
Definition TZ_matrix {W} (self : SubspaceOp W) : result (matrix R) :=
  TZ_compute_matrix (_hyperparameters self !! "subspace"%string).
Definition TS_matrix {W} (self : SubspaceOp W) : result (matrix complex) :=
  TS_compute_matrix (_hyperparameters self !! "subspace"%string).
Definition TT_matrix {W} (self : SubspaceOp W) : result (matrix complex) :=
  TT_compute_matrix (_hyperparameters self !! "subspace"%string).

(** *** [pow]

    [super().pow] of the instance, the generic exponentiation of the base
    class, is the parameter [super_pow]. *)
Section Pow.
Context {P : Type}.
Variable super_pow : value -> result P.

Definition TShift_pow (z : value) : result P := z' ← Py.mod_int z 3; super_pow z'.
Definition TClock_pow (z : value) : result P := z' ← Py.mod_int z 3; super_pow z'.
Definition TAdd_pow (z : value) : result P := z' ← Py.mod_int z 3; super_pow z'.
Definition TSWAP_pow (z : value) : result P := z' ← Py.mod_int z 2; super_pow z'.

Definition TCNOT_pow (z : value) : result P :=
  if negb (Py.isinstance_int z) then super_pow z
  else z' ← Py.mod_int z 2; super_pow z'.
Definition TX_pow (z : value) : result P :=
  if negb (Py.isinstance_int z) then super_pow z
  else z' ← Py.mod_int z 2; super_pow z'.
Definition TY_pow (z : value) : result P :=
  if negb (Py.isinstance_int z) then super_pow z
  else z' ← Py.mod_int z 2; super_pow z'.
Definition TZ_pow (z : value) : result P :=
  if negb (Py.isinstance_int z) then super_pow z
  else z' ← Py.mod_int z 2; super_pow z'.
Definition TH_pow (z : value) : result P :=
  if negb (Py.isinstance_int z) then super_pow z
  else z' ← Py.mod_int z 2; super_pow z'.

End Pow.

(** ** n-dimensional arrays: a shape and the row-major data *)

Record tensor (A : Type) : Type := { shape : list nat; data : list A }.
Arguments shape {A} _.
Arguments data {A} _.

Module nd.
Section Tensors.
Context {A : Type} (zero : A).

Definition size_of (sh : list nat) : nat := foldr Nat.mul 1%nat sh.

(** [np.zeros(sh)] *)
Definition zeros (sh : list nat) : tensor A :=
  {| shape := sh; data := replicate (size_of sh) zero |}.

(** The row-major offset of the index tuple [idx] in an array of shape
    [sh]; the two have the same length wherever it is called. *)
Fixpoint ravel (sh : list nat) (idx : list Z) : result nat :=
  match sh, idx with
  | [], [] => Ok 0%nat
  | n :: sh', i :: idx' =>
      k ← Py.norm_index n i;
      rest ← ravel sh' idx';
      Ok (k * size_of sh' + rest)%nat
  | _, _ => Raise IndexError
  end.

(** [t[tuple(idx)] = v] *)
Definition setitem (t : tensor A) (idx : list Z) (v : A) : result (tensor A) :=
  off ← ravel (shape t) idx;
  Ok {| shape := shape t; data := <[off := v]> (data t) |}.

(** The entry at a full tuple of indices within range. *)
Fixpoint offset (sh : list nat) (idx : list nat) : nat :=
  match sh, idx with
  | _ :: sh', i :: idx' => (i * size_of sh' + offset sh' idx')%nat
  | _, _ => 0%nat
  end.

Definition entry (t : tensor A) (idx : list nat) : A :=
  default zero (data t !! offset (shape t) idx).

(** [math.reshape(t, (-1,) + sh)] when [batched], [math.reshape(t, sh)]
    otherwise. *)
Definition reshape (t : tensor A) (batched : bool) (sh : list nat) : result (tensor A) :=
  let n := length (data t) in
  if batched then
    if ((size_of sh =? 0) || negb (n mod size_of sh =? 0))%nat
    then Raise (ValueError "cannot reshape array")
    else Ok {| shape := (n / size_of sh)%nat :: sh; data := data t |}
  else
    if negb (size_of sh =? n)%nat then Raise (ValueError "cannot reshape array")
    else Ok {| shape := sh; data := data t |}.

(** [math.stack([t, math.zeros_like(t)], axis=-1)] *)
Definition stack_with_zeros (t : tensor A) : tensor A :=
  {| shape := shape t ++ [2%nat];
     data := flat_map (fun x => [x; zero]) (data t) |}.

(** All index tuples of an array of shape [sh], in row-major order. *)
Fixpoint indices (sh : list nat) : list (list nat) :=
  match sh with
  | [] => [[]]
  | n :: sh' => flat_map (fun i => map (cons i) (indices sh')) (seq 0 n)
  end.

(** Position of the first occurrence of [a] in [l]. *)
Fixpoint position (a : nat) (l : list nat) : nat :=
  match l with
  | [] => 0%nat
  | b :: l' => if (a =? b)%nat then 0%nat else S (position a l')
  end.

(** [axes] names every axis of an array of [n] dimensions once. *)
Definition is_axes (n : nat) (axes : list nat) : bool :=
  (length axes =? n)%nat && forallb (fun a => bool_decide (a ∈ axes)) (seq 0 n).

(** [math.transpose(t, axes)]: axis [k] of the result is axis
    [axes[k]] of [t]. *)
Definition transpose (t : tensor A) (axes : list nat) : result (tensor A) :=
  if is_axes (length (shape t)) axes then
    let new_shape := map (fun a => default 0%nat (shape t !! a)) axes in
    let source (idx : list nat) : list nat :=
      map (fun a => default 0%nat (idx !! position a axes)) (seq 0 (length (shape t))) in
    Ok {| shape := new_shape;
          data := map (fun idx => entry t (source idx)) (indices new_shape) |}
  else Raise (ValueError "axes don't match array").

End Tensors.
End nd.

(** ** [state_preparation.py] *)

(** A [for] loop over a list whose body may raise. *)
Fixpoint for_each {S X : Type} (body : S -> X -> result S) (s : S) (l : list X) : result S :=
  match l with
  | [] => Ok s
  | x :: l' => s' ← body s x; for_each body s' l'
  end.

Record QutritBasisState (W : Type) : Type := {
  qbs_parameters : list Z;
  qbs_wires : list W
}.
Arguments qbs_parameters {W} _.
Arguments qbs_wires {W} _.

Record QutritStateVector (W : Type) : Type := {
  qsv_parameters : tensor complex;
  qsv_wires : list W
}.
Arguments qsv_parameters {W} _.
Arguments qsv_wires {W} _.

Section StatePreparation.
Context {W : Type} `{EqDecision W}.

(** Modelled from the spec: the [Wires] class of [pennylane.wires], which
    is not among these source files. A wire sequence is "an ordered,
    duplicate-free list of Wires", so building one from labels that
    repeat fails; [contains_wires] is containment of the labels. *)
Definition Wires (labels : list W) : result (list W) :=
  if bool_decide (NoDup labels) then Ok labels
  else Raise (WireError "Wires must be unique").

Definition contains_wires (ws sub : list W) : bool :=
  forallb (fun w => bool_decide (w ∈ ws)) sub.

(** [Wires(set(ws) - set(sub))]: the labels of [ws] that are not in
    [sub], taken here in the order of [ws]. *)
Definition wires_difference (ws sub : list W) : list W :=
  filter (fun w => w ∉ sub) ws.

(** Modelled from the spec: [batch_size] of the base class. The
    amplitude array has "shape (3^k,) or (batch, 3^k)"; the batch size is
    the leading dimension of the second form and [None] for the first. *)
Definition batch_size (self : QutritStateVector W) : option nat :=
  match shape (qsv_parameters self) with
  | [b; _] => Some b
  | _ => None
  end.

(** The truth value of an optional [int]. *)
Definition truthy (b : option nat) : bool :=
  match b with Some (S _) => true | _ => false end.

Definition QutritBasisState_state_vector (self : QutritBasisState W)
    (wire_order : option (list W)) : result (tensor R) :=
  let prep_vals := qbs_parameters self in
  if existsb (fun i => negb (in_012 i)) prep_vals
  then Raise (ValueError "QutritBasisState parameter must consist of 0, 1 or 2 integers.")
  else
  let num_wires := length (qbs_wires self) in
  if negb (num_wires =? length prep_vals)%nat
  then Raise (ValueError "QutritBasisState parameter and wires must be of equal length.")
  else
  '(num_wires, indices) ←
    match wire_order with
    | None => Ok (num_wires, prep_vals)
    | Some wire_order =>
        ws ← Wires wire_order;
        if negb (contains_wires ws (qbs_wires self))
        then Raise (WireError "Custom wire_order must contain all QutritBasisState wires")
        else
        let num_wires := length wire_order in
        indices ← for_each
                    (fun indices '(base_wire_label, value) =>
                       k ← Py.index wire_order base_wire_label;
                       Py.list_setitem indices (Z.of_nat k) value)
                    (replicate num_wires 0%Z)
                    (zip (qbs_wires self) prep_vals);
        Ok (num_wires, indices)
    end;
  let ket : tensor R := nd.zeros 0%R (replicate num_wires 3%nat) in
  nd.setitem ket indices 1%R.

Definition QutritStateVector_state_vector (self : QutritStateVector W)
    (wire_order : option (list W)) : result (tensor complex) :=
  let num_op_wires := length (qsv_wires self) in
  let batched := truthy (batch_size self) in
  op_vector ← nd.reshape (qsv_parameters self) batched (replicate num_op_wires 3%nat);
  match wire_order with
  | None => Ok op_vector
  | Some wire_order =>
      ws ← Wires wire_order;
      if bool_decide (ws = qsv_wires self) then Ok op_vector else
      wire_order ← Wires wire_order;
      if negb (contains_wires wire_order (qsv_wires self))
      then Raise (WireError "Custom wire_order must contain all QutritStateVector wires")
      else
      let extra_wires := wires_difference wire_order (qsv_wires self) in
      let op_vector :=
        foldl (fun v _ => nd.stack_with_zeros Cx.zero v) op_vector extra_wires in
      let current_wires := qsv_wires self ++ extra_wires in
      transpose_axes ← mapM (fun w => Py.index current_wires w) wire_order;
      let transpose_axes :=
        if batched then 0%nat :: map S transpose_axes else transpose_axes in
      nd.transpose Cx.zero op_vector transpose_axes
  end.

End StatePreparation.

(** ** Vocabulary of the properties *)

(** A trit, and a subspace: two distinct trits. *)
Definition trit (a : Z) : Prop := a = 0%Z \/ a = 1%Z \/ a = 2%Z.

Definition valid_subspace (a b : Z) : Prop := trit a /\ trit b /\ a <> b.

(** The ways a subspace candidate can be malformed, in the order the
    checks are to find them. *)
Inductive failure : Type := NotIterable | WrongLength | NotTrits | NotDistinct.

Definition first_failure (cand : value) : option failure :=
  match cand with
  | PySeq l =>
      if negb (length l =? 2)%nat then Some WrongLength
      else if negb (forallb in_012 l) then Some NotTrits
      else match l with
           | [a; b] => if (a =? b)%Z then Some NotDistinct else None
           | _ => None
           end
  | _ => Some NotIterable
  end.

(** The exception [compute_matrix] of [TX], [TY], [TZ], [TH] and [TCNOT]
    raises for each failure: the three checks raise a [ValueError]; a
    candidate that is no sequence fails in [len] with a [TypeError]. *)
Definition compute_matrix_exn (f : failure) : exn :=
  match f with
  | NotIterable => TypeError
  | WrongLength => ValueError subspace_sequence_msg
  | NotTrits => ValueError subspace_elements_msg
  | NotDistinct => ValueError subspace_unique_msg
  end.

(** The 3x3 identity with the entry at [(b, b)] replaced by [-1]. *)
Definition identity_with_minus_one_at (b : Z) : matrix R :=
  map (fun i => map (fun k => if (i =? k)%nat
                              then (if (Z.of_nat i =? b)%Z then (-1)%R else 1%R)
                              else 0%R) (seq 0 3)) (seq 0 3).

(** The basis vector [e_k] of a qutrit. *)
Definition basis3 (k : nat) : list Z :=
  map (fun i => if (i =? k)%nat then 1%Z else 0%Z) (seq 0 3).

(** The 9x9 matrix that is the identity except for the 3x3 block [x] in
    its last three rows and columns: the block of control state 2. *)
Definition controlled_on_2 (x : matrix R) : matrix R :=
  map (fun i => map (fun k => if ((6 <=? i) && (6 <=? k))%nat
                              then np.entry x (i - 6) (k - 6)
                              else if (i =? k)%nat then 1%R else 0%R)
                    (seq 0 9)) (seq 0 9).

(** The trit of wire [w] in the basis state [n] on the wires [ws], and
    [otherwise] when [w] is not among [ws]. *)
Definition placed {W : Type} `{EqDecision W} (n : list Z) (ws : list W) (w : W)
    (otherwise : Z) : Z :=
  match Py.index ws w with
  | Ok k => default 0%Z (n !! k)
  | Raise _ => otherwise
  end.

(** The index tuple of the nonzero entry of the basis state for the wires
    [target]: along the axis of a wire the operator acts on, the trit of
    that wire; along any other axis, [0]. *)
Definition hot_index {W : Type} `{EqDecision W} (n : list Z) (ws target : list W) : list nat :=
  map (fun w => Z.to_nat (placed n ws w 0%Z)) target.

(** The position of wire [w] in [ws] ([0] when it is absent). *)
Definition wire_position {W : Type} `{EqDecision W} (ws : list W) (w : W) : nat :=
  match Py.index ws w with
  | Ok k => k
  | Raise _ => 0%nat
  end.

(** A custom wire order the state vector can be asked for: duplicate-free
    and containing the wires of the operator. *)
Definition admissible_order {W : Type} (ws : list W) (wire_order : option (list W)) : Prop :=
  match wire_order with
  | None => True
  | Some wo => NoDup wo /\ Forall (fun w => w ∈ wo) ws
  end.

(** An operator base class whose [__init__] accepts every wire list, and
    a generic [pow] that hands back the exponent it was given. *)
Definition accept_wires {W : Type} (ws : list W) : result unit := Ok tt.
Definition echo_pow (z : value) : result value := Ok z.

(** ** More of [non_parametric_ops.py] and [state_preparation.py] *)

Definition TAdd_compute_eigvals : list complex :=
  [OMEGA; Cx.pow OMEGA 2; Cx.one; OMEGA; Cx.pow OMEGA 2; Cx.one; Cx.one; Cx.one; Cx.one].

Definition TSWAP_compute_eigvals : list R :=
  [1; -1; 1; -1; 1; -1; 1; 1; 1]%R.

(** [adjoint] of the subspace gates: a new operator of the same class on
    [self.wires], built from the [subspace] property (and, for [TCNOT],
    the [control_value] property) of [self]; [TS] and [TT] raise. *)
Section Adjoint.
Context {W : Type}.
Variable Operation_init : list W -> result unit.

Definition TX_adjoint (self : SubspaceOp W) : result (SubspaceOp W) :=
  sub ← TX_subspace self; TX_init Operation_init (wires self) (Some sub).
Definition TY_adjoint (self : SubspaceOp W) : result (SubspaceOp W) :=
  sub ← TY_subspace self; TY_init Operation_init (wires self) (Some sub).
Definition TZ_adjoint (self : SubspaceOp W) : result (SubspaceOp W) :=
  sub ← TZ_subspace self; TZ_init Operation_init (wires self) (Some sub).
Definition TH_adjoint (self : SubspaceOp W) : result (SubspaceOp W) :=
  sub ← TH_subspace self; TH_init Operation_init (wires self) (Some sub).
Definition TCNOT_adjoint (self : ControlledOp W) : result (ControlledOp W) :=
  sub ← TCNOT_subspace self;
  cv ← TCNOT_control_value self;
  TCNOT_init Operation_init (c_wires self) (Some sub) (Some cv).
Definition TS_adjoint (self : SubspaceOp W) : result (SubspaceOp W) :=
  Raise AdjointUndefinedError.
Definition TT_adjoint (self : SubspaceOp W) : result (SubspaceOp W) :=
  Raise AdjointUndefinedError.

End Adjoint.

(** [QutritStateVector.__init__]. The constructor of the base class and
    the two tests of the numeric backend, [math.is_abstract(param)] and
    [math.allclose(math.linalg.norm(param, axis=-1, ord=2), 1.0,
    atol=1e-10)], are parameters. *)
Section StateVectorInit.
Context {W : Type}.
Variable StatePrepBase_init : tensor complex -> list W -> result unit.
Variable is_abstract : tensor complex -> bool.
Variable norm_is_one : tensor complex -> bool.

Definition QutritStateVector_init (state : tensor complex) (wires0 : list W)
  : result (QutritStateVector W) :=
  _ ← StatePrepBase_init state wires0;
  let self := {| qsv_parameters := state; qsv_wires := wires0 |} in
  let state :=
    if (length (shape state) =? 1)%nat
    then {| shape := [1%nat; default 0%nat (shape state !! 0%nat)]; data := data state |}
    else state in
  dim ← Py.list_getitem (shape state) 1;
  if negb (dim =? 3 ^ length wires0)%nat
  then Raise (ValueError "State vector must have shape (3**wires,) or (batch_size, 3**wires).")
  else
  let param := state in
  if negb (is_abstract param) then
    if negb (norm_is_one param)
    then Raise (ValueError "Sum of amplitudes-squared does not equal one.")
    else Ok self
  else Ok self.

End StateVectorInit.

(** ** Vocabulary of the further properties *)

(** Complex conjugation, the identity on integer and real entries. *)
Class Conjugate (A : Type) : Type := conjugate : A -> A.
#[export] Instance Conjugate_Z : Conjugate Z := fun z => z.
#[export] Instance Conjugate_R : Conjugate R := fun x => x.
#[export] Instance Conjugate_complex : Conjugate complex := fun a => (a.1, (- a.2)%R).

(** The conjugate transpose of a matrix. *)
Definition dagger {A : Type} `{Scalar A} `{Conjugate A} (m : matrix A) : matrix A :=
  map (fun k => map conjugate (np.column m k)) (seq 0 (length (default [] (head m)))).

Definition hermitian {A : Type} `{Scalar A} `{Conjugate A} (m : matrix A) : Prop :=
  dagger m = m.

Definition unitary {A : Type} `{Scalar A} `{Conjugate A} (m : matrix A) : Prop :=
  np.matmul m (dagger m) = np.eye (length m) /\
  np.matmul (dagger m) m = np.eye (length m).

(** The basis vector [e_k] in dimension [n], and the basis state [|i, j>]
    of two qutrits at position [3 * i + j]. *)
Definition unit_vector {A : Type} `{Scalar A} (n k : nat) : list A :=
  map (fun i => if (i =? k)%nat then s_one else s_zero) (seq 0 n).

Definition ket2 {A : Type} `{Scalar A} (i k : nat) : list A :=
  unit_vector 9 (3 * i + k).

(** An integer or real matrix read as a complex one. *)
Definition complex_of_Z (z : Z) : complex := Cx.of_R (IZR z).

Definition as_complex {A : Type} (f : A -> complex) (m : matrix A) : matrix complex :=
  map (map f) m.

(** The trit the subspace-X gate on [(a, b)] sends trit [t] to. *)
Definition exchange (a b t : nat) : nat :=
  if (t =? a)%nat then b else if (t =? b)%nat then a else t.

(** The control state [TCNOT.compute_matrix] acts on: [0] or [1] when the
    control value equals it, and [2] otherwise. *)
Definition control_state (control_value : option value) : nat :=
  let cv := default (PyInt 2) control_value in
  if Py.eq_int cv 0 then 0%nat else if Py.eq_int cv 1 then 1%nat else 2%nat.

(** The images of the basis state [t] under the subspace-Y and the
    subspace-Hadamard gate on the subspace with the smaller trit [lo] and
    the larger trit [hi]. *)
Definition pauli_y_image (lo hi t : nat) : list complex :=
  if (t =? lo)%nat then map (Cx.mul Cx.j) (unit_vector 3 hi)
  else if (t =? hi)%nat then map (Cx.mul (Cx.opp Cx.j)) (unit_vector 3 lo)
  else unit_vector 3 t.

Definition hadamard_image (lo hi t : nat) : list complex :=
  let h := Cx.of_R (1 / sqrt 2) in
  if (t =? lo)%nat
  then map (fun i => if ((i =? lo) || (i =? hi))%nat then h else Cx.zero) (seq 0 3)
  else if (t =? hi)%nat
  then map (fun i => if (i =? lo)%nat then h
                     else if (i =? hi)%nat then Cx.opp h else Cx.zero) (seq 0 3)
  else unit_vector 3 t.

(** A complex number of modulus one. *)
Definition unit_modulus (a : complex) : Prop :=
  Cx.mul a (conjugate a) = Cx.one.

(** An integer matrix read as a real one. *)
Definition as_real (m : matrix Z) : matrix R := map (map IZR) m.

(** [l] is an eigenvalue of [m]: some vector with a nonzero entry is sent
    by [m] to [l] times itself. *)
Definition eigenvalue {A : Type} `{Scalar A} (m : matrix A) (l : A) : Prop :=
  exists v : list A,
    length v = length m /\ (exists x, x ∈ v /\ x <> s_zero) /\
    np.matvec m v = map (s_mul l) v.

(** The sum of a list of numbers, and the trace of a matrix. *)
Definition total {A : Type} `{Scalar A} (l : list A) : A := foldr s_add s_zero l.

Definition trace {A : Type} `{Scalar A} (m : matrix A) : A :=
  total (imap (fun i row => default s_zero (row !! i)) m).

(** A list of integers in ascending order. *)
Fixpoint ascending (l : list Z) : bool :=
  match l with
  | [] => true
  | x :: l' =>
      match l' with
      | [] => true
      | y :: _ => (x <=? y)%Z && ascending l'
      end
  end.

(** The shape of the amplitudes of [k] qutrits, without a batch axis or
    behind one of size [b], and the shape of their state vector. *)
Definition amplitude_shape (k : nat) (batch : option nat) : list nat :=
  match batch with
  | None => [(3 ^ k)%nat]
  | Some b => [b; (3 ^ k)%nat]
  end.

Definition state_vector_shape (k : nat) (batch : option nat) : list nat :=
  match batch with
  | None => replicate k 3%nat
  | Some b => b :: replicate k 3%nat
  end.

(** An array whose data fill its shape. *)
Definition well_formed {A : Type} (t : tensor A) : Prop :=
  length (data t) = nd.size_of (shape t).

(** * Properties *)

(** ** The subspace checks *)

Lemma in_012_trit (a : Z) : in_012 a = true <-> trit a.
Proof. unfold in_012, trit. lia. Qed.

Lemma valid_subspace_cases (a b : Z) :
  valid_subspace a b ->
  (a, b) = (0, 1)%Z \/ (a, b) = (0, 2)%Z \/ (a, b) = (1, 0)%Z \/
  (a, b) = (1, 2)%Z \/ (a, b) = (2, 0)%Z \/ (a, b) = (2, 1)%Z.
Proof.
  intros ([-> | [-> | ->]] & [-> | [-> | ->]] & Hne); try congruence; tauto.
Qed.

Lemma first_failure_None (cand : value) :
  first_failure cand = None <-> exists a b, cand = PySeq [a; b] /\ valid_subspace a b.
Proof.
  split.
  - destruct cand as [| | | l]; simpl; try discriminate.
    destruct l as [| a [| b [| c l]]]; simpl; try discriminate.
    destruct (in_012 a) eqn:Ha, (in_012 b) eqn:Hb; simpl; try discriminate.
    destruct (Z.eqb_spec a b); try discriminate.
    intros _. exists a, b. split; [reflexivity |].
    repeat split; try (apply in_012_trit; assumption). assumption.
  - intros (a & b & -> & Ha & Hb & Hne). simpl.
    apply in_012_trit in Ha, Hb. rewrite Ha, Hb. simpl.
    destruct (Z.eqb_spec a b); congruence.
Qed.

Lemma subspace_checks_failure (cand : value) (f : failure) :
  first_failure cand = Some f -> subspace_checks cand = Raise (compute_matrix_exn f).
Proof.
  destruct cand as [| | | l]; simpl; try (intros [= <-]; reflexivity).
  unfold subspace_checks. simpl.
  destruct l as [| a [| b [| c l]]]; simpl; try (intros [= <-]; reflexivity).
  destruct (in_012 a) eqn:Ha, (in_012 b) eqn:Hb; simpl; try (intros [= <-]; reflexivity).
  unfold Py.list_getitem; simpl.
  destruct (Z.eqb_spec a b); [intros [= <-]; reflexivity | discriminate].
Qed.

Lemma subspace_checks_valid (a b : Z) :
  valid_subspace a b -> subspace_checks (PySeq [a; b]) = Ok [a; b].
Proof.
  intros H. apply valid_subspace_cases in H.
  destruct H as [H | [H | [H | [H | [H | H]]]]]; injection H as -> ->; reflexivity.
Qed.

Lemma checks_pass_inv (cand : value) (l : list Z) :
  subspace_checks cand = Ok l ->
  exists a b, cand = PySeq [a; b] /\ l = [a; b] /\ valid_subspace a b.
Proof.
  intros Hok. destruct (first_failure cand) as [f |] eqn:Hf.
  - apply subspace_checks_failure in Hf. congruence.
  - apply first_failure_None in Hf as (a & b & -> & Hv).
    rewrite (subspace_checks_valid a b Hv) in Hok. injection Hok as <-.
    exists a, b. auto.
Qed.

(** Every case of a valid subspace, then a computation. *)
Ltac by_subspace_cases H :=
  apply valid_subspace_cases in H;
  destruct H as [H | [H | [H | [H | [H | H]]]]]; injection H as -> ->.

Lemma TX_compute_matrix_failure (cand : value) (f : failure) :
  first_failure cand = Some f ->
  TX_compute_matrix (Some cand) = Raise (compute_matrix_exn f).
Proof.
  intros Hf. unfold TX_compute_matrix. simpl.
  rewrite (subspace_checks_failure _ _ Hf). reflexivity.
Qed.

Lemma TX_compute_matrix_inv (cand : value) (x : matrix R) :
  TX_compute_matrix (Some cand) = Ok x ->
  exists a b, cand = PySeq [a; b] /\ valid_subspace a b.
Proof.
  unfold TX_compute_matrix. simpl.
  destruct (subspace_checks cand) as [l |] eqn:Hc; [| discriminate].
  intros _. apply checks_pass_inv in Hc as (a & b & -> & _ & Hv). eauto.
Qed.

(** Equality of two arrays of real or complex entries, entry by entry. *)
Ltac entrywise tac :=
  repeat match goal with
         | |- @eq (list _) (_ :: _) (_ :: _) => f_equal
         | |- @eq (list _) [] [] => reflexivity
         | |- @eq (R * R) (_, _) (_, _) => f_equal
         | |- @eq R _ _ => tac
         end.

Lemma TX_compute_matrix_valid (a b : Z) :
  valid_subspace a b ->
  exists x, TX_compute_matrix (Some (PySeq [a; b])) = Ok x /\
            np.set_block (np.eye 9) 6 6 x = controlled_on_2 x /\
            np.matmul x x = np.eye 3.
Proof.
  intros H. by_subspace_cases H; eexists; (split; [reflexivity |]);
    (split; [reflexivity |]); vm_compute; entrywise ltac:(lra).
Qed.

Lemma TY_compute_matrix_failure (cand : value) (f : failure) :
  first_failure cand = Some f ->
  TY_compute_matrix (Some cand) = Raise (compute_matrix_exn f).
Proof.
  intros Hf. unfold TY_compute_matrix. simpl.
  rewrite (subspace_checks_failure _ _ Hf). reflexivity.
Qed.

Lemma TZ_compute_matrix_failure (cand : value) (f : failure) :
  first_failure cand = Some f ->
  TZ_compute_matrix (Some cand) = Raise (compute_matrix_exn f).
Proof.
  intros Hf. unfold TZ_compute_matrix. simpl.
  rewrite (subspace_checks_failure _ _ Hf). reflexivity.
Qed.

Lemma TH_compute_matrix_failure (cand : value) (f : failure) :
  first_failure cand = Some f ->
  TH_compute_matrix (Some cand) = Raise (compute_matrix_exn f).
Proof.
  intros Hf. unfold TH_compute_matrix. simpl.
  rewrite (subspace_checks_failure _ _ Hf). reflexivity.
Qed.

Lemma TCNOT_compute_matrix_failure (cand : value) (f : failure) (cv : option value) :
  first_failure cand = Some f ->
  TCNOT_compute_matrix (Some cand) cv = Raise (compute_matrix_exn f).
Proof.
  intros Hf. unfold TCNOT_compute_matrix. simpl.
  rewrite (TX_compute_matrix_failure _ _ Hf). reflexivity.
Qed.

Lemma subspace_init_not_iterable {W : Type} (Operation_init : list W -> result unit)
    (property : SubspaceOp W -> result value) (ws : list W) (cand : value) :
  Py.hasattr_iter cand = false ->
  subspace_init Operation_init property ws cand = Raise (ValueError subspace_sequence_msg).
Proof. intros Hi. unfold subspace_init. rewrite Hi. reflexivity. Qed.

Lemma first_failure_NotIterable (cand : value) :
  first_failure cand = Some NotIterable <-> Py.hasattr_iter cand = false.
Proof.
  destruct cand as [| | | l]; simpl; try (split; [reflexivity | reflexivity]).
  split; [| discriminate].
  destruct (negb (length l =? 2)%nat); [discriminate |].
  destruct (negb (forallb in_012 l)); [discriminate |].
  destruct l as [| a [| b [| c l]]]; try discriminate.
  destruct (a =? b)%Z; discriminate.
Qed.

(** C2, as amended. [compute_matrix] of [TX], [TY], [TZ], [TH] and [TCNOT]
    raises for every malformed subspace candidate before a matrix is
    built, and the first failing check decides the exception: a sequence
    is checked for its length, then for membership of its elements in
    {0, 1, 2}, then for distinctness, each with a [ValueError]; a
    candidate that is not a sequence fails in [len] with a [TypeError],
    since the iterability check is made by the constructors: [__init__]
    of each of the seven subspace gates raises a [ValueError] for it. *)
Theorem subspace_validation_order (cand : value) (f : failure) (cv : option value) :
  first_failure cand = Some f ->
  TX_compute_matrix (Some cand) = Raise (compute_matrix_exn f) /\
  TY_compute_matrix (Some cand) = Raise (compute_matrix_exn f) /\
  TZ_compute_matrix (Some cand) = Raise (compute_matrix_exn f) /\
  TH_compute_matrix (Some cand) = Raise (compute_matrix_exn f) /\
  TCNOT_compute_matrix (Some cand) cv = Raise (compute_matrix_exn f) /\
  (f = NotIterable ->
   forall (W : Type) (Operation_init : list W -> result unit) (ws : list W),
     let rejected := Raise (ValueError subspace_sequence_msg) in
     TX_init Operation_init ws (Some cand) = rejected /\
     TY_init Operation_init ws (Some cand) = rejected /\
     TZ_init Operation_init ws (Some cand) = rejected /\
     TH_init Operation_init ws (Some cand) = rejected /\
     TS_init Operation_init ws (Some cand) = rejected /\
     TT_init Operation_init ws (Some cand) = rejected /\
     TCNOT_init Operation_init ws (Some cand) cv = Raise (ValueError subspace_sequence_msg)).
Proof.
  intros Hf. repeat split;
    auto using TX_compute_matrix_failure, TY_compute_matrix_failure,
      TZ_compute_matrix_failure, TH_compute_matrix_failure, TCNOT_compute_matrix_failure.
  all: try (subst f; apply first_failure_NotIterable in Hf;
            apply subspace_init_not_iterable; exact Hf).
  subst f. apply first_failure_NotIterable in Hf.
  unfold TCNOT_init. simpl. rewrite Hf. reflexivity.
Qed.

Lemma subspace_validation_order_witness :
  (first_failure (PySeq [0; 0]%Z) = Some NotDistinct /\
   TX_compute_matrix (Some (PySeq [0; 0]%Z)) = Raise (ValueError subspace_unique_msg)) /\
  (first_failure (PySeq [0; 3]%Z) = Some NotTrits /\
   TH_compute_matrix (Some (PySeq [0; 3]%Z)) = Raise (ValueError subspace_elements_msg)) /\
  (first_failure (PyInt 1) = Some NotIterable /\
   TS_init (@accept_wires nat) [0%nat] (Some (PyInt 1))
   = Raise (ValueError subspace_sequence_msg)).
Proof.
  split; [| split].
  - split; [reflexivity |].
    exact (proj1 (subspace_validation_order (PySeq [0; 0]%Z) NotDistinct None eq_refl)).
  - split; [reflexivity |].
    exact (proj1 (proj2 (proj2 (proj2
             (subspace_validation_order (PySeq [0; 3]%Z) NotTrits None eq_refl))))).
  - split; [reflexivity |].
    pose proof (subspace_validation_order (PyInt 1) NotIterable None eq_refl) as H.
    do 5 apply proj2 in H.
    exact (proj1 (proj2 (proj2 (proj2 (proj2 (H eq_refl nat accept_wires [0%nat])))))).
Defined.

(** C2, as stated, fails. [TS.compute_matrix] and [TT.compute_matrix]
    make none of the checks: the duplicate subspace [[0, 0]] comes back as
    a matrix. And [TX.compute_matrix] has no iterability check of its own:
    a bare integer is stopped by [len] with a [TypeError], not by a
    subspace error. *)
Lemma phase_gates_accept_duplicate_subspace :
  first_failure (PySeq [0; 0]%Z) = Some NotDistinct /\
  TS_compute_matrix (Some (PySeq [0; 0]%Z))
  = Ok [[Cx.j; Cx.zero; Cx.zero]; [Cx.zero; Cx.one; Cx.zero]; [Cx.zero; Cx.zero; Cx.one]] /\
  Py.raises (TT_compute_matrix (Some (PySeq [0; 0]%Z))) = false /\
  TX_compute_matrix (Some (PyInt 0)) = Raise TypeError.
Proof. repeat split; reflexivity. Qed.

(** ** TZ and TCNOT *)

(** C10. For every valid subspace [(a, b)], [TZ.compute_matrix] is the 3x3
    identity with the entry at [(b, b)] replaced by [-1]; it depends on
    the second element only, so two valid subspaces with the same second
    element give the same matrix. *)
Theorem TZ_matrix_second_element (a a' b : Z) :
  valid_subspace a b -> valid_subspace a' b ->
  TZ_compute_matrix (Some (PySeq [a; b])) = Ok (identity_with_minus_one_at b) /\
  TZ_compute_matrix (Some (PySeq [a'; b])) = TZ_compute_matrix (Some (PySeq [a; b])).
Proof.
  intros H H'.
  assert (Hone : forall c, valid_subspace c b ->
                   TZ_compute_matrix (Some (PySeq [c; b])) = Ok (identity_with_minus_one_at b)).
  { clear. intros c Hc. by_subspace_cases Hc; reflexivity. }
  split; [exact (Hone a H) |].
  rewrite (Hone a H), (Hone a' H'). reflexivity.
Qed.

Lemma TZ_matrix_second_element_witness :
  TZ_compute_matrix (Some (PySeq [0; 1]%Z)) = Ok [[1; 0; 0]; [0; -1; 0]; [0; 0; 1]]%R /\
  TZ_compute_matrix (Some (PySeq [2; 1]%Z)) = TZ_compute_matrix (Some (PySeq [0; 1]%Z)).
Proof.
  assert (H01 : valid_subspace 0 1) by (unfold valid_subspace, trit; lia).
  assert (H21 : valid_subspace 2 1) by (unfold valid_subspace, trit; lia).
  exact (TZ_matrix_second_element 0 2 1 H01 H21).
Defined.

Lemma TCNOT_raises_as_TX (subspace control_value : option value) :
  Py.raises (TCNOT_compute_matrix subspace control_value)
  = Py.raises (TX_compute_matrix (Some (default (PySeq [0; 1]%Z) subspace))).
Proof.
  unfold TCNOT_compute_matrix.
  destruct (TX_compute_matrix _) as [x |]; simpl; [| reflexivity].
  destruct (Py.eq_int _ 0); [reflexivity |].
  destruct (Py.eq_int _ 1); reflexivity.
Qed.

(** C9. [TCNOT.compute_matrix] does not validate [control_value]: every
    value that equals neither [0] nor [1] gives the result of
    [control_value = 2], the 9x9 identity with the subspace-X matrix as
    the block of control state 2; and whether the call raises is decided
    by the subspace alone, whatever the control value. *)
Theorem TCNOT_control_value_unchecked (subspace : option value) (cv : value) :
  Py.eq_int cv 0 = false -> Py.eq_int cv 1 = false ->
  TCNOT_compute_matrix subspace (Some cv) = TCNOT_compute_matrix subspace (Some (PyInt 2)) /\
  TCNOT_compute_matrix subspace (Some cv)
  = (x ← TX_compute_matrix (Some (default (PySeq [0; 1]%Z) subspace)); Ok (controlled_on_2 x)) /\
  (forall cv' : option value,
     Py.raises (TCNOT_compute_matrix subspace cv')
     = Py.raises (TX_compute_matrix (Some (default (PySeq [0; 1]%Z) subspace)))).
Proof.
  intros H0 H1. split; [| split].
  - unfold TCNOT_compute_matrix. simpl. rewrite H0, H1. reflexivity.
  - unfold TCNOT_compute_matrix. simpl. rewrite H0, H1.
    destruct (TX_compute_matrix _) as [x |] eqn:Hx; [| reflexivity].
    apply TX_compute_matrix_inv in Hx as Hv. destruct Hv as (a & b & Hs & Hv).
    rewrite Hs in Hx.
    destruct (TX_compute_matrix_valid a b Hv) as (x' & Hx' & Hblock & _).
    rewrite Hx in Hx'. injection Hx' as <-.
    simpl. rewrite Hblock. reflexivity.
  - intros cv'. apply TCNOT_raises_as_TX.
Qed.

Lemma TCNOT_control_value_unchecked_witness :
  TCNOT_compute_matrix (Some (PySeq [0; 1]%Z)) (Some (PyInt 3))
  = TCNOT_compute_matrix (Some (PySeq [0; 1]%Z)) (Some (PyInt 2)) /\
  TCNOT_compute_matrix (Some (PySeq [0; 1]%Z)) (Some (PyInt (-1)))
  = Ok [[1; 0; 0; 0; 0; 0; 0; 0; 0];
        [0; 1; 0; 0; 0; 0; 0; 0; 0];
        [0; 0; 1; 0; 0; 0; 0; 0; 0];
        [0; 0; 0; 1; 0; 0; 0; 0; 0];
        [0; 0; 0; 0; 1; 0; 0; 0; 0];
        [0; 0; 0; 0; 0; 1; 0; 0; 0];
        [0; 0; 0; 0; 0; 0; 0; 1; 0];
        [0; 0; 0; 0; 0; 0; 1; 0; 0];
        [0; 0; 0; 0; 0; 0; 0; 0; 1]]%R.
Proof.
  split.
  - exact (proj1 (TCNOT_control_value_unchecked (Some (PySeq [0; 1]%Z)) (PyInt 3)
                    eq_refl eq_refl)).
  - rewrite (proj1 (proj2 (TCNOT_control_value_unchecked (Some (PySeq [0; 1]%Z))
                             (PyInt (-1)) eq_refl eq_refl))).
    reflexivity.
Defined.

(** ** Powers *)

(** C3, as amended. For a non-integer exponent [z], [pow] of [TCNOT],
    [TX], [TY], [TZ] and [TH] hands [z] unchanged to the generic
    exponentiation; [pow] of [TShift], [TClock], [TAdd] and [TSWAP] has no
    test on the type of [z] and hands over [z % 3] (for [TSWAP], [z % 2])
    whatever [z] is. *)
Theorem noninteger_exponent_delegation {P : Type} (super_pow : value -> result P) (z : value) :
  Py.isinstance_int z = false ->
  (TCNOT_pow super_pow z = super_pow z /\
   TX_pow super_pow z = super_pow z /\
   TY_pow super_pow z = super_pow z /\
   TZ_pow super_pow z = super_pow z /\
   TH_pow super_pow z = super_pow z) /\
  (TShift_pow super_pow z = (z' ← Py.mod_int z 3; super_pow z') /\
   TClock_pow super_pow z = (z' ← Py.mod_int z 3; super_pow z') /\
   TAdd_pow super_pow z = (z' ← Py.mod_int z 3; super_pow z') /\
   TSWAP_pow super_pow z = (z' ← Py.mod_int z 2; super_pow z')).
Proof.
  intros Hz. unfold TCNOT_pow, TX_pow, TY_pow, TZ_pow, TH_pow. rewrite Hz. simpl.
  repeat split; reflexivity.
Qed.

Lemma noninteger_exponent_delegation_witness :
  TX_pow echo_pow (PyFloat (7 # 2)) = Ok (PyFloat (7 # 2)) /\
  TSWAP_pow echo_pow (PyFloat (7 # 2)) = Ok (PyFloat (3 # 2)).
Proof.
  pose proof (noninteger_exponent_delegation echo_pow (PyFloat (7 # 2)) eq_refl) as [Hx Hs].
  split.
  - exact (proj1 (proj2 Hx)).
  - rewrite (proj2 (proj2 (proj2 Hs))). reflexivity.
Defined.

(** C3, as stated, fails for the gates without the type test: [TShift.pow]
    at the non-integer exponent [3.5] hands [0.5] to the generic
    exponentiation, not [3.5]. *)
Lemma TShift_pow_reduces_fraction :
  Py.isinstance_int (PyFloat (7 # 2)) = false /\
  TShift_pow echo_pow (PyFloat (7 # 2)) = echo_pow (PyFloat (1 # 2)) /\
  TShift_pow echo_pow (PyFloat (7 # 2)) <> echo_pow (PyFloat (7 # 2)).
Proof.
  split; [reflexivity |]. split; [reflexivity |].
  vm_compute. discriminate.
Qed.

(** ** The subspace an operator exposes *)

Section Instances.
Context {W : Type} (Operation_init : list W -> result unit).

Lemma subspace_init_inv (property : SubspaceOp W -> result value)
    (ws : list W) (cand : value) (op : SubspaceOp W) :
  subspace_init Operation_init property ws cand = Ok op ->
  exists l sub,
    cand = PySeq l /\
    property {| wires := []; _subspace := cand; _hyperparameters := ∅ |} = Ok sub /\
    _subspace op = cand /\
    _hyperparameters op !! "subspace"%string = Some sub.
Proof.
  unfold subspace_init.
  destruct cand as [| | | l]; simpl; try discriminate.
  destruct (property _) as [sub |]; cbn; [| discriminate].
  destruct (Operation_init ws); cbn; [| discriminate].
  intros [= <-]. exists l, sub. cbn.
  repeat split.
Qed.

(** [TZ] keeps the order in which the subspace was given. *)
Lemma TZ_subspace_keeps_order (ws : list W) (l : list Z) (op : SubspaceOp W) :
  TZ_init Operation_init ws (Some (PySeq l)) = Ok op ->
  TZ_subspace op = Ok (PySeq l) /\ TZ_matrix op = TZ_compute_matrix (Some (PySeq l)).
Proof.
  intros Hop. apply subspace_init_inv in Hop as (l' & sub & Hl & Hp & Hs & Hh).
  unfold TZ_subspace, TZ_matrix. rewrite Hs, Hh.
  unfold TZ_subspace in Hp. simpl in Hp. injection Hp as <-. split; reflexivity.
Qed.

(** [TS] and [TT] sort it. *)
Lemma phase_gate_subspace_sorted (ws : list W) (l : list Z) (op : SubspaceOp W) :
  TS_init Operation_init ws (Some (PySeq l)) = Ok op \/
  TT_init Operation_init ws (Some (PySeq l)) = Ok op ->
  TS_subspace op = Ok (PySeq (Py.sorted l)) /\
  TT_subspace op = Ok (PySeq (Py.sorted l)) /\
  _hyperparameters op !! "subspace"%string = Some (PySeq (Py.sorted l)).
Proof.
  intros [Hop | Hop]; apply subspace_init_inv in Hop as (l' & sub & Hl & Hp & Hs & Hh);
    unfold TS_subspace, TT_subspace; rewrite Hs, Hh; simpl;
    simpl in Hp; injection Hp as <-; repeat split; reflexivity.
Qed.

(** C8. Building a [TS] or [TT] operator without a subspace raises the
    [ValueError] of the iterability check, since the default [None] is
    not iterable. An instance that was built therefore holds a sequence
    as its subspace, and its matrix comes from the subspace branch of
    [compute_matrix]; the branch with the fixed phases is what the static
    call without a subspace returns. *)
Theorem phase_gate_needs_subspace (ws : list W) (s : option value) (op : SubspaceOp W) :
  TS_init Operation_init ws None = Raise (ValueError subspace_sequence_msg) /\
  TT_init Operation_init ws None = Raise (ValueError subspace_sequence_msg) /\
  (TS_init Operation_init ws s = Ok op ->
   exists l, _hyperparameters op !! "subspace"%string = Some (PySeq l) /\
             TS_matrix op = TS_subspace_matrix (PySeq l)) /\
  (TT_init Operation_init ws s = Ok op ->
   exists l, _hyperparameters op !! "subspace"%string = Some (PySeq l) /\
             TT_matrix op = TT_subspace_matrix (PySeq l)) /\
  TS_compute_matrix None = Ok TS_fixed_phase_matrix /\
  TT_compute_matrix None = Ok TT_fixed_phase_matrix.
Proof.
  split; [reflexivity |]. split; [reflexivity |].
  split; [| split; [| split; reflexivity]].
  - intros Hop. apply subspace_init_inv in Hop as (l & sub & Hl & Hp & Hs & Hh).
    rewrite Hl in Hp. simpl in Hp. injection Hp as <-.
    exists (Py.sorted l). split; [exact Hh |].
    unfold TS_matrix. rewrite Hh. reflexivity.
  - intros Hop. apply subspace_init_inv in Hop as (l & sub & Hl & Hp & Hs & Hh).
    rewrite Hl in Hp. simpl in Hp. injection Hp as <-.
    exists (Py.sorted l). split; [exact Hh |].
    unfold TT_matrix. rewrite Hh. reflexivity.
Qed.

End Instances.

Lemma phase_gate_needs_subspace_witness :
  TS_init (@accept_wires nat) [0%nat] None = Raise (ValueError subspace_sequence_msg) /\
  exists l,
    _hyperparameters
      {| wires := [0%nat]; _subspace := PySeq [0; 1]%Z;
         _hyperparameters := {[ "subspace"%string := PySeq [0; 1]%Z ]} |}
      !! "subspace"%string = Some (PySeq l) /\
    TS_matrix
      {| wires := [0%nat]; _subspace := PySeq [0; 1]%Z;
         _hyperparameters := {[ "subspace"%string := PySeq [0; 1]%Z ]} |}
    = TS_subspace_matrix (PySeq l).
Proof.
  pose proof (phase_gate_needs_subspace (@accept_wires nat) [0%nat]
                (Some (PySeq [0; 1]%Z))
                {| wires := [0%nat]; _subspace := PySeq [0; 1]%Z;
                   _hyperparameters := {[ "subspace"%string := PySeq [0; 1]%Z ]} |})
    as (Hnone & _ & Hts & _).
  split; [exact Hnone |].
  apply Hts. reflexivity.
Defined.

(** C4 holds for [TZ] and fails for the phase gates. A [TS] or [TT]
    operator built on the subspace [[1, 0]] exposes the sorted [(0, 1)]:
    its matrix has the phase at basis state 1, whereas [compute_matrix]
    called on [[1, 0]] itself puts the phase at basis state 0, the second
    listed element. [TZ] built on [[1, 0]] exposes [(1, 0)]. *)
Theorem phase_gate_subspace_loses_order :
  (exists op : SubspaceOp nat,
     TS_init accept_wires [0%nat] (Some (PySeq [1; 0]%Z)) = Ok op /\
     TS_subspace op = Ok (PySeq [0; 1]%Z) /\
     TS_matrix op
     = Ok [[Cx.one; Cx.zero; Cx.zero]; [Cx.zero; Cx.j; Cx.zero]; [Cx.zero; Cx.zero; Cx.one]] /\
     TS_compute_matrix (Some (PySeq [1; 0]%Z))
     = Ok [[Cx.j; Cx.zero; Cx.zero]; [Cx.zero; Cx.one; Cx.zero]; [Cx.zero; Cx.zero; Cx.one]]) /\
  (exists op : SubspaceOp nat,
     TT_init accept_wires [0%nat] (Some (PySeq [1; 0]%Z)) = Ok op /\
     TT_subspace op = Ok (PySeq [0; 1]%Z) /\
     TT_matrix op = TT_compute_matrix (Some (PySeq [0; 1]%Z))) /\
  (exists op : SubspaceOp nat,
     TZ_init accept_wires [0%nat] (Some (PySeq [1; 0]%Z)) = Ok op /\
     TZ_subspace op = Ok (PySeq [1; 0]%Z)).
Proof.
  split; [| split].
  - eexists. split; [reflexivity |]. split; [reflexivity |]. split; reflexivity.
  - eexists. split; [reflexivity |]. split; reflexivity.
  - eexists. split; reflexivity.
Qed.

(** ** Finite order of the gates *)

(** Unfold the array operations down to the arithmetic of the entries. *)
Ltac unfold_arrays :=
  cbv - [Rplus Rmult Rminus Ropp Rdiv Rinv IZR sqrt cos sin PI].

(** A polynomial identity in [s] given [Hs : s * s = c]. *)
Ltac by_square Hs :=
  first
    [ lra
    | nra
    | match type of Hs with
      | (?s * ?s)%R = ?c =>
          let H2 := fresh in
          let H3 := fresh in
          assert (H2 : (s ^ 2 = c)%R) by (rewrite <- Hs; ring);
          assert (H3 : (s ^ 3 = c * s)%R) by (rewrite <- Hs; ring);
          ring_simplify; rewrite ?H3, ?H2; lra
      end ].

Lemma sqrt2_sq : (sqrt 2 * sqrt 2 = 2)%R.
Proof. apply sqrt_sqrt. lra. Qed.

Lemma sqrt3_sq : (sqrt 3 * sqrt 3 = 3)%R.
Proof. apply sqrt_sqrt. lra. Qed.

Lemma OMEGA_value : OMEGA = ((-1 / 2)%R, (sqrt 3 / 2)%R).
Proof.
  unfold OMEGA, Cx.expi.
  replace (2 * PI / 3)%R with (2 * (PI / 3))%R by lra.
  rewrite cos_2PI3, sin_2PI3. reflexivity.
Qed.

Lemma OMEGA_cubed : Cx.mul OMEGA (Cx.mul OMEGA OMEGA) = Cx.one.
Proof.
  rewrite OMEGA_value. pose proof sqrt3_sq as Hs. revert Hs.
  generalize (sqrt 3). intros s Hs. unfold_arrays. entrywise ltac:(by_square Hs).
Qed.

Lemma Cx_pow_2 (w : complex) : Cx.pow w 2 = Cx.mul w w.
Proof. destruct w. unfold_arrays. entrywise ltac:(ring). Qed.

Lemma Cx_one_cubed : Cx.mul Cx.one (Cx.mul Cx.one Cx.one) = Cx.one.
Proof. unfold_arrays. entrywise ltac:(ring). Qed.

Lemma Cx_square_cubed (w : complex) :
  Cx.mul w (Cx.mul w w) = Cx.one ->
  Cx.mul (Cx.pow w 2) (Cx.mul (Cx.pow w 2) (Cx.pow w 2)) = Cx.one.
Proof.
  intros Hw.
  transitivity (Cx.mul (Cx.mul w (Cx.mul w w)) (Cx.mul w (Cx.mul w w))).
  - destruct w. unfold_arrays. entrywise ltac:(ring).
  - rewrite Hw. unfold_arrays. entrywise ltac:(ring).
Qed.

Lemma diag3_matmul (a b c a' b' c' : complex) :
  np.matmul (np.diag [a; b; c]) (np.diag [a'; b'; c'])
  = np.diag [Cx.mul a a'; Cx.mul b b'; Cx.mul c c'].
Proof.
  destruct a, b, c, a', b', c'. unfold_arrays. entrywise ltac:(ring).
Qed.

Lemma TShift_cubed :
  np.matmul TShift_compute_matrix (np.matmul TShift_compute_matrix TShift_compute_matrix)
  = np.eye 3.
Proof. reflexivity. Qed.

Lemma TClock_cubed :
  np.matmul TClock_compute_matrix (np.matmul TClock_compute_matrix TClock_compute_matrix)
  = np.eye 3.
Proof.
  unfold TClock_compute_matrix. rewrite !diag3_matmul.
  rewrite Cx_one_cubed, OMEGA_cubed, (Cx_square_cubed OMEGA OMEGA_cubed).
  reflexivity.
Qed.

Lemma TSWAP_squared : np.matmul TSWAP_compute_matrix TSWAP_compute_matrix = np.eye 9.
Proof. reflexivity. Qed.

Lemma TY_squared (a b : Z) :
  valid_subspace a b ->
  exists y, TY_compute_matrix (Some (PySeq [a; b])) = Ok y /\ np.matmul y y = np.eye 3.
Proof.
  intros H. by_subspace_cases H; eexists; (split; [reflexivity |]);
    unfold_arrays; entrywise ltac:(lra).
Qed.

Lemma TZ_squared (a b : Z) :
  valid_subspace a b ->
  exists z, TZ_compute_matrix (Some (PySeq [a; b])) = Ok z /\ np.matmul z z = np.eye 3.
Proof.
  intros H. by_subspace_cases H; eexists; (split; [reflexivity |]);
    unfold_arrays; entrywise ltac:(lra).
Qed.

Lemma TH_squared (a b : Z) :
  valid_subspace a b ->
  exists h, TH_compute_matrix (Some (PySeq [a; b])) = Ok h /\ np.matmul h h = np.eye 3.
Proof.
  intros H. pose proof sqrt2_sq as Hr.
  assert (Hpos : (0 < sqrt 2)%R) by (apply sqrt_lt_R0; lra).
  by_subspace_cases H; eexists; (split; [reflexivity |]);
    revert Hr Hpos; generalize (sqrt 2); intros r Hr Hpos;
    assert (Hinv : (/ r = r / 2)%R)
      by (apply (Rmult_eq_reg_l r); [field_simplify; [lra | lra] | lra]);
    unfold_arrays; unfold Rdiv; rewrite !Hinv; entrywise ltac:(by_square Hr).
Qed.

Lemma TCNOT_squared (a b : Z) (cv : option value) :
  valid_subspace a b ->
  exists c, TCNOT_compute_matrix (Some (PySeq [a; b])) cv = Ok c /\
            np.matmul c c = np.eye 9.
Proof.
  intros H. unfold TCNOT_compute_matrix.
  destruct (Py.eq_int (default (PyInt 2) cv) 0);
    [| destruct (Py.eq_int (default (PyInt 2) cv) 1)];
    by_subspace_cases H; eexists; (split; [reflexivity |]);
    unfold_arrays; entrywise ltac:(lra).
Qed.

(** C5. The canonical matrices of [TShift] and [TClock] cubed are the
    identity; those of [TSWAP] and, for every valid subspace (and every
    control value), of [TX], [TY], [TZ], [TH] and [TCNOT] squared are the
    identity. For every integer [z], [pow(z)] of these gates calls the
    generic exponentiation with [z] reduced modulo 3 for the first two
    and modulo 2 for the others. *)
Theorem finite_order_and_integer_powers {P : Type} (super_pow : value -> result P)
    (z a b : Z) (cv : option value) :
  valid_subspace a b ->
  let cube {A} `{Scalar A} (m : matrix A) := np.matmul m (np.matmul m m) in
  let square {A} `{Scalar A} (m : matrix A) := np.matmul m m in
  let sub := Some (PySeq [a; b]) in
  (cube TShift_compute_matrix = np.eye 3 /\
   cube TClock_compute_matrix = np.eye 3 /\
   square TSWAP_compute_matrix = np.eye 9 /\
   (exists x, TX_compute_matrix sub = Ok x /\ square x = np.eye 3) /\
   (exists y, TY_compute_matrix sub = Ok y /\ square y = np.eye 3) /\
   (exists t, TZ_compute_matrix sub = Ok t /\ square t = np.eye 3) /\
   (exists h, TH_compute_matrix sub = Ok h /\ square h = np.eye 3) /\
   (exists c, TCNOT_compute_matrix sub cv = Ok c /\ square c = np.eye 9)) /\
  (TShift_pow super_pow (PyInt z) = super_pow (PyInt (z mod 3)) /\
   TClock_pow super_pow (PyInt z) = super_pow (PyInt (z mod 3)) /\
   TSWAP_pow super_pow (PyInt z) = super_pow (PyInt (z mod 2)) /\
   TX_pow super_pow (PyInt z) = super_pow (PyInt (z mod 2)) /\
   TY_pow super_pow (PyInt z) = super_pow (PyInt (z mod 2)) /\
   TZ_pow super_pow (PyInt z) = super_pow (PyInt (z mod 2)) /\
   TH_pow super_pow (PyInt z) = super_pow (PyInt (z mod 2)) /\
   TCNOT_pow super_pow (PyInt z) = super_pow (PyInt (z mod 2))).
Proof.
  intros Hv cube square sub. split.
  - split; [exact TShift_cubed |]. split; [exact TClock_cubed |].
    split; [exact TSWAP_squared |].
    split; [destruct (TX_compute_matrix_valid a b Hv) as (x & Hx & _ & Hsq); eauto |].
    split; [exact (TY_squared a b Hv) |]. split; [exact (TZ_squared a b Hv) |].
    split; [exact (TH_squared a b Hv) | exact (TCNOT_squared a b cv Hv)].
  - repeat split; reflexivity.
Qed.

Lemma finite_order_and_integer_powers_witness :
  (exists x, TX_compute_matrix (Some (PySeq [0; 1]%Z)) = Ok x /\
             np.matmul x x = np.eye 3) /\
  TShift_pow echo_pow (PyInt 7) = Ok (PyInt 1) /\
  TX_pow echo_pow (PyInt (-3)) = Ok (PyInt 1).
Proof.
  assert (H01 : valid_subspace 0 1) by (unfold valid_subspace, trit; lia).
  split; [| split].
  - exact (proj1 (proj2 (proj2 (proj2 (proj1
             (finite_order_and_integer_powers echo_pow 7 0 1 None H01)))))).
  - exact (proj1 (proj2 (finite_order_and_integer_powers echo_pow 7 0 1 None H01))).
  - exact (proj1 (proj2 (proj2 (proj2 (proj2
             (finite_order_and_integer_powers echo_pow (-3) 0 1 None H01)))))).
Defined.

(** ** The shift gate *)

(** The numbers [1], [w], [w * w] for the cube root of unity
    [w = exp(2 * pi * i / 3)] are pairwise different. *)
Lemma cube_roots_distinct :
  NoDup [Cx.one; Cx.expi (2 * PI / 3); Cx.mul (Cx.expi (2 * PI / 3)) (Cx.expi (2 * PI / 3))].
Proof.
  fold OMEGA. rewrite OMEGA_value.
  pose proof sqrt3_sq as Hs.
  assert (Hpos : (0 < sqrt 3)%R) by (apply sqrt_lt_R0; lra).
  revert Hs Hpos. generalize (sqrt 3). intros s Hs Hpos.
  unfold Cx.one, Cx.of_R, Cx.mul. simpl.
  repeat constructor; rewrite ?elem_of_cons, ?elem_of_nil.
  - intros [[= H1 H2] | [[= H1 H2] | []]]; lra.
  - intros [[= H1 H2] | []]; nra.
  - intros [].
Qed.

(** Each value of [TShift.compute_eigvals] is an eigenvalue of the shift
    matrix: it has the eigenvector [(1, l * l, l)]. *)
Lemma TShift_eigenvector (l : complex) :
  l ∈ TShift_compute_eigvals ->
  let S : matrix complex := map (map (fun z : Z => Cx.of_R (IZR z))) TShift_compute_matrix in
  let v := [Cx.one; Cx.mul l l; l] in
  np.matvec S v = map (Cx.mul l) v.
Proof.
  intros Hl S v.
  assert (H3 : Cx.mul l (Cx.mul l l) = Cx.one).
  { unfold TShift_compute_eigvals in Hl.
    rewrite !elem_of_cons, elem_of_nil in Hl.
    destruct Hl as [-> | [-> | [-> | []]]].
    - exact OMEGA_cubed.
    - exact (Cx_square_cubed OMEGA OMEGA_cubed).
    - exact Cx_one_cubed. }
  subst S v. destruct l as [x y]. injection H3 as H1 H2.
  unfold_arrays. entrywise ltac:(nra).
Qed.

(** C6. The matrix of [TShift] sends the basis state [k] to the basis
    state [(k + 1) mod 3], its cube is the identity, and
    [TShift.compute_eigvals] returns, in some order, the three distinct
    numbers [1], [w] and [w * w] with [w = exp(2 * pi * i / 3)]. *)
Theorem TShift_cyclic_permutation (k : nat) :
  (k < 3)%nat ->
  let S := TShift_compute_matrix in
  let w := Cx.expi (2 * PI / 3) in
  np.matvec S (basis3 k) = basis3 ((k + 1) mod 3) /\
  np.matmul S (np.matmul S S) = np.eye 3 /\
  Permutation TShift_compute_eigvals [Cx.one; w; Cx.mul w w] /\
  NoDup [Cx.one; w; Cx.mul w w].
Proof.
  intros Hk S w. split; [| split; [| split]].
  - destruct k as [| [| [| k]]]; try lia; reflexivity.
  - exact TShift_cubed.
  - unfold TShift_compute_eigvals. rewrite Cx_pow_2. fold w. unfold OMEGA. fold w.
    apply Permutation_sym.
    change [Cx.one; w; Cx.mul w w] with ([Cx.one] ++ [w; Cx.mul w w]).
    change [w; Cx.mul w w; Cx.one] with ([w; Cx.mul w w] ++ [Cx.one]).
    apply Permutation_app_comm.
  - exact cube_roots_distinct.
Qed.

Lemma TShift_cyclic_permutation_witness :
  np.matvec TShift_compute_matrix [0; 0; 1]%Z = [1; 0; 0]%Z.
Proof.
  assert (H : (2 < 3)%nat) by lia.
  exact (proj1 (TShift_cyclic_permutation 2 H)).
Defined.

(** ** Basis states *)

Lemma lookup_map {A B : Type} (f : A -> B) (l : list A) (i : nat) :
  map f l !! i = f <$> (l !! i).
Proof. revert i. induction l as [| x l IH]; intros [| i]; simpl; auto. Qed.

Lemma size_of_cons (n : nat) (sh : list nat) :
  nd.size_of (n :: sh) = (n * nd.size_of sh)%nat.
Proof. reflexivity. Qed.

Lemma offset_cons (n i : nat) (sh idx : list nat) :
  nd.offset (n :: sh) (i :: idx) = (i * nd.size_of sh + nd.offset sh idx)%nat.
Proof. reflexivity. Qed.

Lemma size_of_replicate_3 (m : nat) : nd.size_of (replicate m 3%nat) = (3 ^ m)%nat.
Proof.
  induction m as [| m IH]; [reflexivity |].
  cbn [replicate]. rewrite size_of_cons, IH. cbn [Nat.pow]. lia.
Qed.

Lemma offset_bound (idx : list nat) :
  Forall (fun i => i < 3)%nat idx ->
  (nd.offset (replicate (length idx) 3%nat) idx < nd.size_of (replicate (length idx) 3%nat))%nat.
Proof.
  induction 1 as [| i idx Hi _ IH]; [cbn; lia |].
  cbn [length replicate]. rewrite offset_cons, size_of_cons. nia.
Qed.

Lemma offset_injective (idx hot : list nat) :
  length idx = length hot ->
  Forall (fun i => i < 3)%nat idx -> Forall (fun i => i < 3)%nat hot ->
  nd.offset (replicate (length idx) 3%nat) idx = nd.offset (replicate (length idx) 3%nat) hot ->
  idx = hot.
Proof.
  intros Hlen Hidx. revert hot Hlen.
  induction Hidx as [| i idx Hi Hidx IH]; intros [| h hot] Hlen Hhot;
    try discriminate; [reflexivity |].
  injection Hlen as Hlen. inversion Hhot as [| ? ? Hh Hhot']; subst.
  cbn [length replicate]. rewrite !offset_cons.
  pose proof (offset_bound idx Hidx) as Hb1.
  pose proof (offset_bound hot Hhot') as Hb2. rewrite <- Hlen in Hb2.
  intros Heq.
  assert (i = h) by nia. subst h.
  f_equal. apply IH; auto. lia.
Qed.

Lemma ravel_trits (n : list Z) :
  Forall trit n ->
  nd.ravel (replicate (length n) 3%nat) n
  = Ok (nd.offset (replicate (length n) 3%nat) (map Z.to_nat n)).
Proof.
  induction 1 as [| i n Hi _ IH]; simpl; [reflexivity |].
  rewrite IH.
  destruct Hi as [-> | [-> | ->]]; reflexivity.
Qed.

Section BasisState.
Context {W : Type} `{EqDecision W}.

Lemma index_Ok (l : list W) (w : W) :
  w ∈ l -> exists k, Py.index l w = Ok k /\ l !! k = Some w.
Proof.
  induction l as [| y l IH]; intros Hin; [inversion Hin |].
  simpl. destruct (decide (y = w)) as [-> | Hne]; [exists 0%nat; auto |].
  apply elem_of_cons in Hin as [-> | Hin]; [congruence |].
  destruct (IH Hin) as (k & -> & Hk). exists (S k). auto.
Qed.

Lemma index_Raise (l : list W) (w : W) :
  w ∉ l -> exists e, Py.index l w = Raise e.
Proof.
  induction l as [| y l IH]; intros Hnin; simpl; [eauto |].
  apply not_elem_of_cons in Hnin as [Hne Hnin].
  destruct (decide (y = w)); [congruence |].
  destruct (IH Hnin) as (e & ->). simpl. eauto.
Qed.

Lemma index_lookup (l : list W) (k : nat) (w : W) :
  NoDup l -> l !! k = Some w -> Py.index l w = Ok k.
Proof.
  intros Hnd Hk.
  destruct (index_Ok l w (list_elem_of_lookup_2 _ _ _ Hk)) as (k' & Hi & Hk').
  rewrite Hi. f_equal. eapply NoDup_lookup; eassumption.
Qed.

Lemma list_setitem_nat {A : Type} (l : list A) (k : nat) (v : A) :
  (k < length l)%nat -> Py.list_setitem l (Z.of_nat k) v = Ok (<[k := v]> l).
Proof.
  intros Hk. unfold Py.list_setitem, Py.norm_index.
  replace ((0 <=? Z.of_nat k) && (Z.of_nat k <? Z.of_nat (length l)))%Z with true
    by (symmetry; apply andb_true_iff; split; lia).
  simpl. rewrite Nat2Z.id. reflexivity.
Qed.

Lemma placement_loop (wire_order : list W) :
  NoDup wire_order ->
  forall (ws : list W) (n indices : list Z),
    NoDup ws -> Forall (fun w => w ∈ wire_order) ws ->
    length n = length ws -> length indices = length wire_order ->
    exists indices',
      for_each (fun indices '(base_wire_label, value) =>
                  k ← Py.index wire_order base_wire_label;
                  Py.list_setitem indices (Z.of_nat k) value)
               indices (zip ws n) = Ok indices' /\
      length indices' = length wire_order /\
      forall j w, wire_order !! j = Some w ->
                  indices' !! j = Some (placed n ws w (default 0%Z (indices !! j))).
Proof.
  intros Hwo ws. induction ws as [| w0 ws IH]; intros n indices Hnd Hsub Hlen Hacc.
  - exists indices. split; [reflexivity |]. split; [assumption |].
    intros j w Hj. unfold placed. simpl.
    destruct (lookup_lt_is_Some_2 indices j) as [x Hx];
      [rewrite Hacc; eapply lookup_lt_Some; eassumption |].
    rewrite Hx. reflexivity.
  - destruct n as [| v0 n]; [discriminate |]. injection Hlen as Hlen.
    apply NoDup_cons in Hnd as [Hnin Hnd].
    apply Forall_cons in Hsub as [Hin Hsub].
    destruct (index_Ok wire_order w0 Hin) as (k & Hk & Hkw).
    assert (Hklt : (k < length indices)%nat)
      by (rewrite Hacc; eapply lookup_lt_Some; eassumption).
    destruct (IH n (<[k := v0]> indices) Hnd Hsub Hlen) as (indices' & Hrun & Hlen' & Hval);
      [rewrite length_insert; assumption |].
    exists indices'. split; [| split; [assumption |]].
    + cbn [zip zip_with for_each]. rewrite Hk. cbn.
      rewrite (list_setitem_nat indices k v0 Hklt). cbn. exact Hrun.
    + intros j w Hj. rewrite (Hval j w Hj). f_equal. unfold placed. simpl.
      destruct (decide (w0 = w)) as [<- | Hne].
      * destruct (index_Raise ws w0 Hnin) as (e & ->).
        assert (j = k) by exact (NoDup_lookup _ _ _ _ Hwo Hj Hkw). subst j.
        rewrite list_lookup_insert_eq by assumption. reflexivity.
      * destruct (Py.index ws w) as [k' | e]; simpl; [reflexivity |].
        rewrite list_lookup_insert_ne; [reflexivity |].
        intros ->. congruence.
Qed.

Lemma placed_trit (n : list Z) (ws : list W) (w : W) :
  Forall trit n -> trit (placed n ws w 0%Z).
Proof.
  intros Hn. unfold placed. destruct (Py.index ws w) as [k | e]; [| left; reflexivity].
  destruct (n !! k) as [v |] eqn:Hv; simpl; [| left; reflexivity].
  rewrite Forall_forall in Hn. apply Hn.
  eapply list_elem_of_lookup_2. eassumption.
Qed.

Lemma placed_self (n : list Z) (ws : list W) :
  NoDup ws -> length n = length ws -> map (fun w => placed n ws w 0%Z) ws = n.
Proof.
  intros Hnd Hlen. apply list_eq. intros j. rewrite lookup_map.
  destruct (ws !! j) as [w |] eqn:Hj; simpl.
  - unfold placed. rewrite (index_lookup ws j w Hnd Hj).
    destruct (lookup_lt_is_Some_2 n j) as [v Hv];
      [rewrite Hlen; eapply lookup_lt_Some; eassumption |].
    rewrite Hv. reflexivity.
  - symmetry. apply lookup_ge_None. rewrite Hlen. apply lookup_ge_None. assumption.
Qed.

Lemma one_hot_entry (hot idx : list nat) :
  length idx = length hot ->
  Forall (fun i => i < 3)%nat hot -> Forall (fun i => i < 3)%nat idx ->
  let sh := replicate (length hot) 3%nat in
  nd.entry 0%R
    {| shape := sh; data := <[nd.offset sh hot := 1%R]> (replicate (nd.size_of sh) 0%R) |}
    idx
  = if bool_decide (idx = hot) then 1%R else 0%R.
Proof.
  intros Hlen Hhot Hidx sh. unfold nd.entry. cbn [shape data].
  pose proof (offset_bound hot Hhot) as Hb. fold sh in Hb.
  pose proof (offset_bound idx Hidx) as Hb'. rewrite Hlen in Hb'. fold sh in Hb'.
  case_bool_decide as Heq.
  - subst idx. rewrite list_lookup_insert_eq; [reflexivity |].
    rewrite length_replicate. exact Hb.
  - rewrite list_lookup_insert_ne.
    + rewrite lookup_replicate_2 by exact Hb'. reflexivity.
    + intros Hoff. apply Heq. apply offset_injective; auto.
      rewrite Hlen. fold sh. symmetry. exact Hoff.
Qed.

Lemma trits_below_3 (l : list Z) :
  Forall trit l -> Forall (fun i => i < 3)%nat (map Z.to_nat l).
Proof.
  induction 1 as [| i l Hi _ IH]; simpl; constructor; [| exact IH].
  destruct Hi as [-> | [-> | ->]]; simpl; lia.
Qed.

(** The index tuple the code builds, for either form of [wire_order]. *)
Lemma state_vector_indices (n : list Z) (ws : list W) (wire_order : option (list W)) :
  Forall trit n -> length n = length ws -> NoDup ws -> admissible_order ws wire_order ->
  let target := default ws wire_order in
  QutritBasisState_state_vector {| qbs_parameters := n; qbs_wires := ws |} wire_order
  = nd.setitem (nd.zeros 0%R (replicate (length target) 3%nat))
               (map (fun w => placed n ws w 0%Z) target) 1%R.
Proof.
  intros Hn Hlen Hnd Hadm target. unfold QutritBasisState_state_vector. cbn [qbs_parameters qbs_wires].
  replace (existsb (fun i => negb (in_012 i)) n) with false.
  2:{ symmetry. apply not_true_is_false. intros Hex.
      apply existsb_exists in Hex as (i & Hi & Hneg).
      rewrite Forall_forall in Hn. apply list_elem_of_In, Hn, in_012_trit in Hi.
      rewrite Hi in Hneg.
      discriminate. }
  rewrite <- Hlen, Nat.eqb_refl. cbn [negb].
  destruct wire_order as [wo |]; cbn [default] in target; subst target.
  - destruct Hadm as [Hwo Hsub].
    unfold Wires. rewrite (bool_decide_eq_true_2 _ Hwo). cbn.
    replace (contains_wires wo ws) with true.
    2:{ symmetry. unfold contains_wires. apply forallb_forall. intros w Hw.
        apply bool_decide_eq_true_2. rewrite Forall_forall in Hsub. apply Hsub.
        apply list_elem_of_In. exact Hw. }
    cbn [negb].
    destruct (placement_loop wo Hwo ws n (replicate (length wo) 0%Z) Hnd Hsub Hlen)
      as (indices & Hrun & Hlen' & Hval); [apply length_replicate |].
    rewrite Hrun. cbn.
    replace indices with (map (fun w => placed n ws w 0%Z) wo); [reflexivity |].
    apply list_eq. intros j. rewrite lookup_map.
    destruct (wo !! j) as [w |] eqn:Hj; simpl.
    + rewrite (Hval j w Hj).
      rewrite lookup_replicate_2 by (eapply lookup_lt_Some; eassumption). reflexivity.
    + symmetry. apply lookup_ge_None. rewrite Hlen'. apply lookup_ge_None. assumption.
  - cbn. rewrite (placed_self n ws Hnd Hlen). rewrite Hlen. reflexivity.
Qed.

End BasisState.

(** C7. For trits [n], one per wire of the operator, and a wire order that
    is left out or contains the wires of the operator,
    [QutritBasisState.state_vector] returns an array of shape [(3,) * m],
    [m] the length of the target order, whose entry at the index tuple
    [hot_index] is [1] and whose other entries are [0]; the trits [[2, 2]]
    on two wires with no wire order give the nine entries with the last
    one set. *)
Theorem basis_state_is_one_hot {W : Type} `{EqDecision W}
    (n : list Z) (ws : list W) (wire_order : option (list W)) :
  Forall trit n -> length n = length ws -> NoDup ws -> admissible_order ws wire_order ->
  let target := default ws wire_order in
  let m := length target in
  (exists ket,
     QutritBasisState_state_vector {| qbs_parameters := n; qbs_wires := ws |} wire_order
     = Ok ket /\
     shape ket = replicate m 3%nat /\
     length (data ket) = (3 ^ m)%nat /\
     forall idx : list nat,
       length idx = m -> Forall (fun i => i < 3)%nat idx ->
       nd.entry 0%R ket idx
       = if bool_decide (idx = hot_index n ws target) then 1%R else 0%R) /\
  QutritBasisState_state_vector
    {| qbs_parameters := [2; 2]%Z; qbs_wires := [0%nat; 1%nat] |} None
  = Ok {| shape := [3%nat; 3%nat];
          data := [0; 0; 0; 0; 0; 0; 0; 0; 1]%R |}.
Proof.
  intros Hn Hlen Hnd Hadm target m. split; [| reflexivity].
  rewrite (state_vector_indices n ws wire_order Hn Hlen Hnd Hadm). fold target.
  set (indices := map (fun w => placed n ws w 0%Z) target).
  assert (Hind : Forall trit indices).
  { apply Forall_forall. intros v Hv. apply list_elem_of_In, in_map_iff in Hv as (w & <- & _).
    apply placed_trit. exact Hn. }
  assert (Hlen_ind : length indices = m) by (unfold indices; apply length_map).
  assert (Hhot : map Z.to_nat indices = hot_index n ws target).
  { unfold indices, hot_index. rewrite map_map. reflexivity. }
  unfold nd.setitem, nd.zeros. cbn [shape data]. fold m.
  assert (Hravel : nd.ravel (replicate m 3%nat) indices
                   = Ok (nd.offset (replicate m 3%nat) (map Z.to_nat indices)))
    by (rewrite <- Hlen_ind; apply ravel_trits; exact Hind).
  rewrite Hravel. cbn.
  eexists. split; [reflexivity |]. cbn [shape data].
  split; [reflexivity |]. split.
  - rewrite length_insert, length_replicate. apply size_of_replicate_3.
  - intros idx Hidx Hlt. rewrite <- Hhot.
    pose proof (one_hot_entry (map Z.to_nat indices) idx) as Hone.
    rewrite length_map, Hlen_ind in Hone.
    apply Hone; [exact Hidx | apply trits_below_3; exact Hind | exact Hlt].
Qed.

Lemma basis_state_is_one_hot_witness :
  exists ket,
    QutritBasisState_state_vector
      {| qbs_parameters := [2; 1]%Z; qbs_wires := [0%nat; 1%nat] |}
      (Some [1%nat; 5%nat; 0%nat])
    = Ok ket /\
    shape ket = [3%nat; 3%nat; 3%nat] /\
    nd.entry 0%R ket [1%nat; 0%nat; 2%nat] = 1%R /\
    nd.entry 0%R ket [2%nat; 0%nat; 1%nat] = 0%R.
Proof.
  assert (Hn : Forall trit [2; 1]%Z)
    by (repeat constructor; unfold trit; lia).
  assert (Hnd : NoDup [0%nat; 1%nat]) by (apply (bool_decide_unpack _); reflexivity).
  assert (Hadm : admissible_order [0%nat; 1%nat] (Some [1%nat; 5%nat; 0%nat])).
  { split; apply (bool_decide_unpack _); reflexivity. }
  destruct (proj1 (basis_state_is_one_hot [2; 1]%Z [0%nat; 1%nat]
                     (Some [1%nat; 5%nat; 0%nat]) Hn eq_refl Hnd Hadm))
    as (ket & Hket & Hshape & _ & Hentry).
  exists ket. split; [exact Hket |]. split; [exact Hshape |]. split.
  - apply (Hentry [1%nat; 0%nat; 2%nat]); [reflexivity | repeat constructor; lia].
  - apply (Hentry [2%nat; 0%nat; 1%nat]); [reflexivity | repeat constructor; lia].
Defined.

(** ** Amplitude vectors *)

(** The padding step adds a trailing axis of size 2 that holds
    [(amplitude, 0)]. *)
Lemma stack_with_zeros_axis {A : Type} (zero : A) (t : tensor A) :
  shape (nd.stack_with_zeros zero t) = shape t ++ [2%nat] /\
  length (data (nd.stack_with_zeros zero t)) = (2 * length (data t))%nat /\
  forall i x, data t !! i = Some x ->
              data (nd.stack_with_zeros zero t) !! (2 * i)%nat = Some x /\
              data (nd.stack_with_zeros zero t) !! (2 * i + 1)%nat = Some zero.
Proof.
  unfold nd.stack_with_zeros. cbn [shape data]. split; [reflexivity |].
  induction (data t) as [| y l [IHlen IH]].
  - split; [reflexivity |]. intros i x Hi. rewrite lookup_nil in Hi. discriminate.
  - split; [cbn [flat_map length app] in *; lia |].
    intros [| i] x Hi.
    + injection Hi as ->. split; reflexivity.
    + replace (2 * S i)%nat with (S (S (2 * i))) by lia.
      replace (S (S (2 * i)) + 1)%nat with (S (S (2 * i + 1))) by lia.
      exact (IH i x Hi).
Qed.

Section PaddedShape.
Context {W : Type} `{EqDecision W}.

Lemma padded_shape (extra : list W) (t : tensor complex) :
  shape (foldl (fun v _ => nd.stack_with_zeros Cx.zero v) t extra)
  = shape t ++ replicate (length extra) 2%nat.
Proof.
  revert t. induction extra as [| w extra IH]; intros t; cbn [foldl length replicate].
  - rewrite app_nil_r. reflexivity.
  - rewrite IH. cbn [nd.stack_with_zeros shape]. rewrite <- app_assoc. reflexivity.
Qed.

Lemma index_app_l (l k : list W) (w : W) :
  w ∈ l -> Py.index (l ++ k) w = Py.index l w.
Proof.
  induction l as [| y l IH]; intros Hin; [inversion Hin |].
  cbn. destruct (decide (y = w)); [reflexivity |].
  apply elem_of_cons in Hin as [-> | Hin]; [congruence |].
  rewrite (IH Hin). reflexivity.
Qed.

Lemma index_app_r (l k : list W) (w : W) (i : nat) :
  w ∉ l -> Py.index k w = Ok i -> Py.index (l ++ k) w = Ok (length l + i)%nat.
Proof.
  induction l as [| y l IH]; intros Hnin Hi; [exact Hi |].
  apply not_elem_of_cons in Hnin as [Hne Hnin].
  cbn. destruct (decide (y = w)); [congruence |].
  rewrite (IH Hnin Hi). reflexivity.
Qed.

Lemma mapM_index (current wire_order : list W) :
  Forall (fun w => w ∈ current) wire_order ->
  mapM (fun w => Py.index current w) wire_order
  = Ok (map (wire_position current) wire_order).
Proof.
  induction 1 as [| w wo Hw _ IH]; [reflexivity |].
  cbn. unfold wire_position at 1.
  destruct (index_Ok current w Hw) as (k & Hk & _). rewrite Hk. cbn.
  rewrite IH. reflexivity.
Qed.

(** The shape the code returns for an unbatched state and a wire order
    that extends the wires of the operator: size 3 along the axis of a
    wire of the operator, size 2 along the axis of every other wire. *)
Lemma padded_state_vector_shape (state : tensor complex) (ws wire_order : list W) :
  shape state = [(3 ^ length ws)%nat] -> length (data state) = (3 ^ length ws)%nat ->
  NoDup ws -> NoDup wire_order -> Forall (fun w => w ∈ wire_order) ws ->
  wire_order <> ws ->
  exists t,
    QutritStateVector_state_vector {| qsv_parameters := state; qsv_wires := ws |}
      (Some wire_order) = Ok t /\
    shape t = map (fun w => if decide (w ∈ ws) then 3%nat else 2%nat) wire_order.
Proof.
  intros Hshape Hdata Hnd Hwo Hsub Hne.
  unfold QutritStateVector_state_vector, batch_size. cbn [qsv_parameters qsv_wires].
  rewrite Hshape. cbn [truthy]. unfold nd.reshape.
  rewrite size_of_replicate_3, Hdata, Nat.eqb_refl. cbn [negb].
  unfold Wires. rewrite (bool_decide_eq_true_2 _ Hwo). cbn.
  rewrite (bool_decide_eq_false_2 _ Hne).
  replace (contains_wires wire_order ws) with true.
  2:{ symmetry. apply forallb_forall. intros w Hw. apply bool_decide_eq_true_2.
      rewrite Forall_forall in Hsub. apply Hsub, list_elem_of_In, Hw. }
  cbn [negb].
  set (extra := wires_difference wire_order ws).
  set (current := ws ++ extra).
  set (padded := foldl _ _ extra).
  assert (Hpadded : shape padded
                    = replicate (length ws) 3%nat ++ replicate (length extra) 2%nat)
    by (unfold padded; rewrite padded_shape; reflexivity).
  assert (Hextra : forall w, w ∈ extra <-> (w ∉ ws) /\ (w ∈ wire_order))
    by (intros w; unfold extra, wires_difference; rewrite list_elem_of_filter; reflexivity).
  assert (Hcur : forall w, w ∈ current <-> w ∈ wire_order).
  { intros w. unfold current. rewrite elem_of_app, Hextra.
    rewrite Forall_forall in Hsub. split.
    - intros [Hw | [_ Hw]]; auto.
    - intros Hw. destruct (decide (w ∈ ws)); auto. }
  assert (Hcur_nd : NoDup current).
  { apply NoDup_app. split; [exact Hnd |]. split.
    - intros w Hw Hw'. apply Hextra in Hw'. tauto.
    - apply NoDup_filter. exact Hwo. }
  assert (Hlen : length wire_order = (length ws + length extra)%nat).
  { rewrite <- length_app. apply Permutation_length.
    apply NoDup_Permutation; [exact Hwo | exact Hcur_nd |]. intros w. symmetry. apply Hcur. }
  rewrite (mapM_index current wire_order)
    by (apply Forall_forall; intros w Hw; apply Hcur; exact Hw).
  cbn. unfold nd.transpose.
  replace (nd.is_axes (length (shape padded)) (map (wire_position current) wire_order))
    with true.
  2:{ symmetry. unfold nd.is_axes. rewrite Hpadded, length_app, !length_replicate, length_map.
      apply andb_true_iff. split; [apply Nat.eqb_eq; exact Hlen |].
      apply forallb_forall. intros a Ha. apply bool_decide_eq_true_2.
      apply in_seq in Ha.
      destruct (lookup_lt_is_Some_2 current a) as [w Hw];
        [unfold current; rewrite length_app; lia |].
      apply list_elem_of_In, in_map_iff. exists w. split.
      - unfold wire_position. rewrite (index_lookup current a w Hcur_nd Hw). reflexivity.
      - apply list_elem_of_In, Hcur. eapply list_elem_of_lookup_2. exact Hw. }
  eexists. split; [reflexivity |]. cbn [shape].
  rewrite map_map. apply map_ext_in. intros w Hw. rewrite Hpadded.
  unfold wire_position, current. destruct (decide (w ∈ ws)) as [Hin | Hnin].
  - rewrite (index_app_l ws extra w Hin).
    destruct (index_Ok ws w Hin) as (k & -> & Hk).
    apply lookup_lt_Some in Hk.
    rewrite lookup_app_l by (rewrite length_replicate; exact Hk).
    rewrite lookup_replicate_2 by exact Hk. reflexivity.
  - assert (Hex : w ∈ extra) by (apply Hextra; split; [exact Hnin | apply list_elem_of_In, Hw]).
    destruct (index_Ok extra w Hex) as (k & Hi & Hk).
    rewrite (index_app_r ws extra w k Hnin Hi).
    apply lookup_lt_Some in Hk.
    rewrite lookup_app_r by (rewrite length_replicate; lia).
    rewrite length_replicate. replace (length ws + k - length ws)%nat with k by lia.
    rewrite lookup_replicate_2 by exact Hk. reflexivity.
Qed.

End PaddedShape.

(** C1 fails on the code. A state on the single wire [0], asked for in the
    wire order [[0, 1]], comes back with shape [(3, 2)] and six entries:
    the axis added for wire [1] has size 2 and holds [(amplitude, 0)],
    where a qutrit axis has size 3 and the claim has [(amplitude, 0, 0)];
    with a batch axis the same happens behind it. *)
Theorem state_vector_pads_with_qubit_axis :
  QutritStateVector_state_vector
    {| qsv_parameters := {| shape := [3%nat]; data := [Cx.one; Cx.zero; Cx.zero] |};
       qsv_wires := [0%nat] |}
    (Some [0%nat; 1%nat])
  = Ok {| shape := [3%nat; 2%nat];
          data := [Cx.one; Cx.zero; Cx.zero; Cx.zero; Cx.zero; Cx.zero] |} /\
  QutritStateVector_state_vector
    {| qsv_parameters :=
         {| shape := [2%nat; 3%nat];
            data := [Cx.one; Cx.zero; Cx.zero; Cx.zero; Cx.j; Cx.zero] |};
       qsv_wires := [0%nat] |}
    (Some [1%nat; 0%nat])
  = Ok {| shape := [2%nat; 2%nat; 3%nat];
          data := [Cx.one; Cx.zero; Cx.zero; Cx.zero; Cx.zero; Cx.zero;
                   Cx.zero; Cx.j; Cx.zero; Cx.zero; Cx.zero; Cx.zero] |}.
Proof. split; reflexivity. Qed.

(** * Further properties *)

(** ** What the matrices do to the basis states *)

(** Case analysis on a trit given as a natural number below 3. *)
Ltac trit_cases i Hi :=
  destruct i as [| [| [| i]]]; [| | | exfalso; lia]; clear Hi.

(** X1. The matrix of [TAdd] is the controlled add: it sends the basis
    state [|i, j>] to [|i, (i + j) mod 3>], and its cube is the identity,
    the period [pow] reduces by. *)
Theorem TAdd_controlled_add (i k : nat) :
  (i < 3)%nat -> (k < 3)%nat ->
  np.matvec TAdd_compute_matrix (ket2 i k) = ket2 i ((i + k) mod 3) /\
  np.matmul TAdd_compute_matrix (np.matmul TAdd_compute_matrix TAdd_compute_matrix)
  = np.eye 9.
Proof.
  intros Hi Hk. split; [| reflexivity].
  trit_cases i Hi; trit_cases k Hk; reflexivity.
Qed.

Lemma TAdd_controlled_add_witness :
  np.matvec TAdd_compute_matrix (ket2 2 2) = ket2 (A := Z) 2 1.
Proof.
  assert (H : (2 < 3)%nat) by lia.
  exact (proj1 (TAdd_controlled_add 2 2 H H)).
Defined.

(** X2. The matrix of [TSWAP] exchanges the two qutrits: it sends the
    basis state [|i, j>] to [|j, i>]. *)
Theorem TSWAP_exchanges_registers (i k : nat) :
  (i < 3)%nat -> (k < 3)%nat ->
  np.matvec TSWAP_compute_matrix (ket2 i k) = ket2 k i.
Proof.
  intros Hi Hk. trit_cases i Hi; trit_cases k Hk; reflexivity.
Qed.

Lemma TSWAP_exchanges_registers_witness :
  np.matvec TSWAP_compute_matrix (ket2 0 2) = ket2 (A := Z) 2 0.
Proof.
  assert (H0 : (0 < 3)%nat) by lia. assert (H2 : (2 < 3)%nat) by lia.
  exact (TSWAP_exchanges_registers 0 2 H0 H2).
Defined.

(** X3. For a valid subspace [(a, b)], the matrix of [TX] exchanges the
    basis states [a] and [b] and leaves the third one alone, and it is the
    same matrix for [(a, b)] and [(b, a)]. *)
Theorem TX_exchanges_subspace (a b : Z) (t : nat) :
  valid_subspace a b -> (t < 3)%nat ->
  exists x,
    TX_compute_matrix (Some (PySeq [a; b])) = Ok x /\
    TX_compute_matrix (Some (PySeq [b; a])) = Ok x /\
    np.matvec x (unit_vector 3 t) = unit_vector 3 (exchange (Z.to_nat a) (Z.to_nat b) t).
Proof.
  intros H Ht. by_subspace_cases H; eexists; (split; [reflexivity |]);
    (split; [reflexivity |]); trit_cases t Ht; unfold_arrays; entrywise ltac:(lra).
Qed.

Lemma TX_exchanges_subspace_witness :
  exists x,
    TX_compute_matrix (Some (PySeq [2; 0]%Z)) = Ok x /\
    np.matvec x [1; 0; 0]%R = [0; 0; 1]%R.
Proof.
  assert (H20 : valid_subspace 2 0) by (unfold valid_subspace, trit; lia).
  assert (H0 : (0 < 3)%nat) by lia.
  destruct (TX_exchanges_subspace 2 0 0 H20 H0) as (x & Hx & _ & Hv).
  exists x. split; [exact Hx | exact Hv].
Defined.

(** X4. For a valid subspace [(a, b)] and any control value, the matrix
    of [TCNOT] is the controlled subspace-X: on the basis state [|c, t>]
    it exchanges [a] and [b] in the target when the control [c] is the
    control state (0 or 1 when the control value equals it, 2 otherwise)
    and changes nothing for the other two control states. *)
Theorem TCNOT_controlled_exchange (a b : Z) (cv : option value) (c t : nat) :
  valid_subspace a b -> (c < 3)%nat -> (t < 3)%nat ->
  exists m,
    TCNOT_compute_matrix (Some (PySeq [a; b])) cv = Ok m /\
    np.matvec m (ket2 c t)
    = ket2 c (if (c =? control_state cv)%nat
              then exchange (Z.to_nat a) (Z.to_nat b) t else t).
Proof.
  intros H Hc Ht. unfold TCNOT_compute_matrix, control_state.
  destruct (Py.eq_int (default (PyInt 2) cv) 0);
    [| destruct (Py.eq_int (default (PyInt 2) cv) 1)];
    by_subspace_cases H; eexists; (split; [reflexivity |]);
    trit_cases c Hc; trit_cases t Ht; unfold_arrays; entrywise ltac:(lra).
Qed.

Lemma TCNOT_controlled_exchange_witness :
  exists m,
    TCNOT_compute_matrix (Some (PySeq [0; 1]%Z)) None = Ok m /\
    np.matvec m (ket2 2 0) = ket2 2 1.
Proof.
  assert (H01 : valid_subspace 0 1) by (unfold valid_subspace, trit; lia).
  assert (H2 : (2 < 3)%nat) by lia. assert (H0 : (0 < 3)%nat) by lia.
  exact (TCNOT_controlled_exchange 0 1 None 2 0 H01 H2 H0).
Defined.

(** X5. For a valid subspace with smaller trit [lo] and larger trit [hi],
    the matrix of [TY] sends [lo] to [i] times [hi] and [hi] to [-i]
    times [lo], leaves the third basis state alone, and is the same for
    both orders of the subspace. *)
Theorem TY_acts_on_subspace (a b : Z) (t : nat) :
  valid_subspace a b -> (t < 3)%nat ->
  exists y,
    TY_compute_matrix (Some (PySeq [a; b])) = Ok y /\
    TY_compute_matrix (Some (PySeq [b; a])) = Ok y /\
    np.matvec y (unit_vector 3 t)
    = pauli_y_image (Z.to_nat (Z.min a b)) (Z.to_nat (Z.max a b)) t.
Proof.
  intros H Ht. by_subspace_cases H; eexists; (split; [reflexivity |]);
    (split; [reflexivity |]); trit_cases t Ht; unfold_arrays; entrywise ltac:(lra).
Qed.

Lemma TY_acts_on_subspace_witness :
  exists y,
    TY_compute_matrix (Some (PySeq [2; 1]%Z)) = Ok y /\
    np.matvec y (unit_vector 3 1) = map (Cx.mul Cx.j) (unit_vector 3 2).
Proof.
  assert (H21 : valid_subspace 2 1) by (unfold valid_subspace, trit; lia).
  assert (H1 : (1 < 3)%nat) by lia.
  destruct (TY_acts_on_subspace 2 1 1 H21 H1) as (y & Hy & _ & Hv).
  exists y. split; [exact Hy | exact Hv].
Defined.

(** X6. For a valid subspace with smaller trit [lo] and larger trit [hi],
    the matrix of [TH] is the Hadamard gate on the subspace: it sends [lo]
    to [(lo + hi) / sqrt 2] and [hi] to [(lo - hi) / sqrt 2], leaves the
    third basis state alone, and is the same for both orders of the
    subspace. *)
Theorem TH_acts_on_subspace (a b : Z) (t : nat) :
  valid_subspace a b -> (t < 3)%nat ->
  exists h,
    TH_compute_matrix (Some (PySeq [a; b])) = Ok h /\
    TH_compute_matrix (Some (PySeq [b; a])) = Ok h /\
    np.matvec h (unit_vector 3 t)
    = hadamard_image (Z.to_nat (Z.min a b)) (Z.to_nat (Z.max a b)) t.
Proof.
  intros H Ht.
  assert (Hpos : (0 < sqrt 2)%R) by (apply sqrt_lt_R0; lra).
  by_subspace_cases H; eexists; (split; [reflexivity |]);
    (split; [reflexivity |]); trit_cases t Ht;
    unfold_arrays; revert Hpos; generalize (sqrt 2); intros r Hpos;
    entrywise ltac:(first [lra | field; lra]).
Qed.

Lemma TH_acts_on_subspace_witness :
  exists h,
    TH_compute_matrix (Some (PySeq [0; 1]%Z)) = Ok h /\
    np.matvec h (unit_vector 3 2) = unit_vector 3 2.
Proof.
  assert (H01 : valid_subspace 0 1) by (unfold valid_subspace, trit; lia).
  assert (H2 : (2 < 3)%nat) by lia.
  destruct (TH_acts_on_subspace 0 1 2 H01 H2) as (h & Hh & _ & Hv).
  exists h. split; [exact Hh | exact Hv].
Defined.

(** ** Unitary and Hermitian matrices *)

Lemma hermitian_involution_unitary {A : Type} `{Scalar A} `{Conjugate A} (m : matrix A) :
  hermitian m -> np.matmul m m = np.eye (length m) -> unitary m.
Proof. intros Hh Hsq. unfold unitary. rewrite Hh. split; exact Hsq. Qed.

Lemma expi_unit_modulus (t : R) : unit_modulus (Cx.expi t).
Proof.
  unfold unit_modulus, Cx.expi, Cx.mul, conjugate, Conjugate_complex, Cx.one, Cx.of_R.
  cbn [fst snd]. pose proof (sin2_cos2 t) as Hsc. unfold Rsqr in Hsc.
  f_equal; lra.
Qed.

Lemma unit_modulus_mul (a b : complex) :
  unit_modulus a -> unit_modulus b -> unit_modulus (Cx.mul a b).
Proof.
  destruct a as [a1 a2], b as [b1 b2].
  unfold unit_modulus, Cx.mul, conjugate, Conjugate_complex, Cx.one, Cx.of_R.
  cbn [fst snd]. intros [= Ha _] [= Hb _]. f_equal; [| ring].
  replace (_ - _)%R with ((a1 * a1 - a2 * - a2) * (b1 * b1 - b2 * - b2))%R by ring.
  rewrite Ha, Hb. ring.
Qed.

Lemma unit_modulus_one : unit_modulus Cx.one.
Proof. unfold_arrays. entrywise ltac:(lra). Qed.

Lemma unit_modulus_pow (a : complex) (n : nat) :
  unit_modulus a -> unit_modulus (Cx.pow a n).
Proof.
  intros Ha. induction n as [| n IH]; [exact unit_modulus_one |].
  cbn [Cx.pow]. apply unit_modulus_mul; assumption.
Qed.

Lemma diag3_unitary (a b c : complex) :
  unit_modulus a -> unit_modulus b -> unit_modulus c -> unitary (np.diag [a; b; c]).
Proof.
  destruct a as [a1 a2], b as [b1 b2], c as [c1 c2].
  unfold unit_modulus, Cx.mul, conjugate, Conjugate_complex, Cx.one, Cx.of_R.
  cbn [fst snd]. intros [= Ha _] [= Hb _] [= Hc _].
  split; unfold_arrays; entrywise ltac:(nra).
Qed.

(** X7. The matrices of [TShift], [TClock], [TAdd] and [TSWAP] are
    unitary: each times its conjugate transpose, in either order, is the
    identity. *)
Theorem fixed_gates_unitary :
  unitary TShift_compute_matrix /\ unitary TClock_compute_matrix /\
  unitary TAdd_compute_matrix /\ unitary TSWAP_compute_matrix.
Proof.
  split; [split; reflexivity |]. split; [| split; split; reflexivity].
  unfold TClock_compute_matrix. apply diag3_unitary.
  - exact unit_modulus_one.
  - apply expi_unit_modulus.
  - apply unit_modulus_pow, expi_unit_modulus.
Qed.

(** X8. For every valid subspace (and every control value), the matrices
    of [TX], [TY], [TZ], [TH] and [TCNOT] are Hermitian and unitary, so
    that [adjoint] is right to return the same gate. *)
Theorem subspace_gates_hermitian_unitary (a b : Z) (cv : option value) :
  valid_subspace a b ->
  let sub := Some (PySeq [a; b]) in
  (exists x, TX_compute_matrix sub = Ok x /\ hermitian x /\ unitary x) /\
  (exists y, TY_compute_matrix sub = Ok y /\ hermitian y /\ unitary y) /\
  (exists z, TZ_compute_matrix sub = Ok z /\ hermitian z /\ unitary z) /\
  (exists h, TH_compute_matrix sub = Ok h /\ hermitian h /\ unitary h) /\
  (exists c, TCNOT_compute_matrix sub cv = Ok c /\ hermitian c /\ unitary c).
Proof.
  intros Hv sub.
  assert (Hpos : (0 < sqrt 2)%R) by (apply sqrt_lt_R0; lra).
  split; [| split; [| split; [| split]]].
  - destruct (TX_compute_matrix_valid a b Hv) as (x & Hx & _ & Hsq).
    exists x. split; [exact Hx |].
    assert (Hh : hermitian x /\ length x = 3%nat).
    { clear Hsq. unfold sub in *. by_subspace_cases Hv; injection Hx as <-;
        (split; [unfold_arrays; entrywise ltac:(lra) | reflexivity]). }
    destruct Hh as [Hh Hlen]. split; [exact Hh |].
    apply hermitian_involution_unitary; [exact Hh | rewrite Hlen; exact Hsq].
  - destruct (TY_squared a b Hv) as (y & Hy & Hsq).
    exists y. split; [exact Hy |].
    assert (Hh : hermitian y /\ length y = 3%nat).
    { clear Hsq. by_subspace_cases Hv; injection Hy as <-;
        (split; [unfold_arrays; entrywise ltac:(lra) | reflexivity]). }
    destruct Hh as [Hh Hlen]. split; [exact Hh |].
    apply hermitian_involution_unitary; [exact Hh | rewrite Hlen; exact Hsq].
  - destruct (TZ_squared a b Hv) as (z & Hz & Hsq).
    exists z. split; [exact Hz |].
    assert (Hh : hermitian z /\ length z = 3%nat).
    { clear Hsq. by_subspace_cases Hv; injection Hz as <-;
        (split; [unfold_arrays; entrywise ltac:(lra) | reflexivity]). }
    destruct Hh as [Hh Hlen]. split; [exact Hh |].
    apply hermitian_involution_unitary; [exact Hh | rewrite Hlen; exact Hsq].
  - destruct (TH_squared a b Hv) as (h & Hh0 & Hsq).
    exists h. split; [exact Hh0 |].
    assert (Hh : hermitian h /\ length h = 3%nat).
    { clear Hsq. by_subspace_cases Hv; injection Hh0 as <-;
        (split; [unfold_arrays; revert Hpos; generalize (sqrt 2); intros r Hpos;
                 entrywise ltac:(lra)
                | reflexivity]). }
    destruct Hh as [Hh Hlen]. split; [exact Hh |].
    apply hermitian_involution_unitary; [exact Hh | rewrite Hlen; exact Hsq].
  - destruct (TCNOT_squared a b cv Hv) as (c & Hc & Hsq).
    exists c. split; [exact Hc |].
    assert (Hh : hermitian c /\ length c = 9%nat).
    { clear Hsq. unfold TCNOT_compute_matrix in Hc.
      destruct (Py.eq_int (default (PyInt 2) cv) 0);
        [| destruct (Py.eq_int (default (PyInt 2) cv) 1)];
        by_subspace_cases Hv; injection Hc as <-;
        (split; [unfold_arrays; entrywise ltac:(lra) | reflexivity]). }
    destruct Hh as [Hh Hlen]. split; [exact Hh |].
    apply hermitian_involution_unitary; [exact Hh | rewrite Hlen; exact Hsq].
Qed.

Lemma subspace_gates_hermitian_unitary_witness :
  exists y, TY_compute_matrix (Some (PySeq [0; 2]%Z)) = Ok y /\ hermitian y /\ unitary y.
Proof.
  assert (H02 : valid_subspace 0 2) by (unfold valid_subspace, trit; lia).
  exact (proj1 (proj2 (subspace_gates_hermitian_unitary 0 2 None H02))).
Defined.

(** ** The phase gates *)

Lemma scale_diag3 (k a b c : complex) :
  np.scale k (np.diag [a; b; c]) = np.diag [Cx.mul k a; Cx.mul k b; Cx.mul k c].
Proof. destruct k, a, b, c. unfold_arrays. entrywise ltac:(ring). Qed.

(** X9. The matrices of [TS] and [TT] are unitary: the ones with the fixed
    phases, returned without a subspace, and the ones for every valid
    subspace. *)
Theorem phase_gates_unitary (a b : Z) :
  valid_subspace a b ->
  unitary TS_fixed_phase_matrix /\ unitary TT_fixed_phase_matrix /\
  (exists s, TS_compute_matrix (Some (PySeq [a; b])) = Ok s /\ unitary s) /\
  (exists t, TT_compute_matrix (Some (PySeq [a; b])) = Ok t /\ unitary t).
Proof.
  intros Hv.
  assert (Hz : unit_modulus ZETA) by apply expi_unit_modulus.
  assert (Hw : unit_modulus OMEGA) by apply expi_unit_modulus.
  split; [| split; [| split]].
  - unfold TS_fixed_phase_matrix. rewrite scale_diag3.
    apply diag3_unitary; apply unit_modulus_mul;
      auto using unit_modulus_pow, unit_modulus_one.
  - unfold TT_fixed_phase_matrix.
    apply diag3_unitary; auto using unit_modulus_pow, unit_modulus_one.
  - by_subspace_cases Hv; eexists; (split; [reflexivity |]);
      split; unfold_arrays; entrywise ltac:(lra).
  - pose proof (sin2_cos2 (PI / 4)) as Hsc. unfold Rsqr in Hsc.
    by_subspace_cases Hv; eexists; (split; [reflexivity |]);
      split; unfold_arrays; revert Hsc;
      generalize (cos (PI / 4)) (sin (PI / 4)); intros x y Hsc;
      entrywise ltac:(nra).
Qed.

Lemma phase_gates_unitary_witness :
  exists s, TS_compute_matrix (Some (PySeq [1; 0]%Z)) = Ok s /\ unitary s.
Proof.
  assert (H10 : valid_subspace 1 0) by (unfold valid_subspace, trit; lia).
  exact (proj1 (proj2 (proj2 (phase_gates_unitary 1 0 H10)))).
Defined.

Lemma expi_add (s t : R) : Cx.mul (Cx.expi s) (Cx.expi t) = Cx.expi (s + t).
Proof.
  unfold Cx.mul, Cx.expi. cbn [fst snd]. rewrite cos_plus, sin_plus. f_equal; ring.
Qed.

Lemma expi_0 : Cx.expi 0 = Cx.one.
Proof. unfold Cx.expi, Cx.one, Cx.of_R. rewrite cos_0, sin_0. reflexivity. Qed.

Lemma expi_two_turns (t : R) : Cx.expi (t + 4 * PI) = Cx.expi t.
Proof.
  unfold Cx.expi.
  replace (t + 4 * PI)%R with (t + 2 * PI + 2 * PI)%R by ring.
  rewrite !cos_plus, !sin_plus, cos_2PI, sin_2PI. f_equal; ring.
Qed.

Lemma ZETA_cubed : Cx.mul ZETA (Cx.mul ZETA ZETA) = OMEGA.
Proof. unfold ZETA, OMEGA. rewrite !expi_add. f_equal. field. Qed.

Lemma ZETA_8_cubed :
  Cx.mul (Cx.pow ZETA 8) (Cx.mul (Cx.pow ZETA 8) (Cx.pow ZETA 8)) = Cx.pow OMEGA 2.
Proof.
  unfold ZETA, OMEGA. cbn [Cx.pow]. rewrite <- expi_0, !expi_add.
  rewrite <- (expi_two_turns (2 * PI / 3 + (2 * PI / 3 + 0))). f_equal. field.
Qed.

(** X10. How the phase gates compose. For every valid subspace, the
    square of the [TT] matrix is the [TS] matrix and the square of the
    [TS] matrix is the [TZ] matrix; the cube of the [TT] matrix with the
    fixed phases is the [TClock] matrix. *)
Theorem phase_gate_powers (a b : Z) :
  valid_subspace a b ->
  let sub := Some (PySeq [a; b]) in
  (exists t s z,
     TT_compute_matrix sub = Ok t /\ TS_compute_matrix sub = Ok s /\
     TZ_compute_matrix sub = Ok z /\
     np.matmul t t = s /\ np.matmul s s = as_complex Cx.of_R z) /\
  np.matmul TT_fixed_phase_matrix (np.matmul TT_fixed_phase_matrix TT_fixed_phase_matrix)
  = TClock_compute_matrix.
Proof.
  intros Hv sub. split.
  - pose proof sqrt2_sq as Hr.
    assert (Hpos : (0 < sqrt 2)%R) by (apply sqrt_lt_R0; lra).
    by_subspace_cases Hv; do 3 eexists;
      (split; [reflexivity |]); (split; [reflexivity |]); (split; [reflexivity |]);
      (split; [| unfold_arrays; entrywise ltac:(lra)]);
      unfold_arrays; rewrite ?cos_PI4, ?sin_PI4;
      revert Hr Hpos; generalize (sqrt 2); intros r Hr Hpos;
      assert (Hinv : (/ r = r / 2)%R)
        by (apply (Rmult_eq_reg_l r); [field_simplify; [lra | lra] | lra]);
      unfold Rdiv; rewrite ?Hinv; entrywise ltac:(by_square Hr).
  - unfold TT_fixed_phase_matrix, TClock_compute_matrix. rewrite !diag3_matmul.
    rewrite Cx_one_cubed, ZETA_cubed, ZETA_8_cubed. reflexivity.
Qed.

Lemma phase_gate_powers_witness :
  exists t s z,
    TT_compute_matrix (Some (PySeq [0; 2]%Z)) = Ok t /\
    TS_compute_matrix (Some (PySeq [0; 2]%Z)) = Ok s /\
    TZ_compute_matrix (Some (PySeq [0; 2]%Z)) = Ok z /\
    np.matmul t t = s /\ np.matmul s s = as_complex Cx.of_R z.
Proof.
  assert (H02 : valid_subspace 0 2) by (unfold valid_subspace, trit; lia).
  exact (proj1 (phase_gate_powers 0 2 H02)).
Defined.

(** ** Shift and clock together *)

(** X11. The clock and the shift matrix commute up to the phase [OMEGA]:
    clock times shift is [OMEGA] times shift times clock. *)
Theorem clock_shift_commutation :
  let X := as_complex complex_of_Z TShift_compute_matrix in
  let Z := TClock_compute_matrix in
  np.matmul Z X = np.scale OMEGA (np.matmul X Z).
Proof.
  intros X Z. subst X Z. unfold TClock_compute_matrix. rewrite OMEGA_value.
  pose proof sqrt3_sq as Hs. revert Hs. generalize (sqrt 3). intros s Hs.
  unfold_arrays. entrywise ltac:(by_square Hs).
Qed.

(** ** Eigenvalues *)

Lemma complex_one_nonzero : Cx.one <> Cx.zero.
Proof. unfold Cx.one, Cx.zero, Cx.of_R. intros [= H]. lra. Qed.

Lemma cube_root_cases (l : complex) :
  l ∈ [OMEGA; Cx.pow OMEGA 2; Cx.one] -> Cx.mul l (Cx.mul l l) = Cx.one.
Proof.
  rewrite !elem_of_cons, elem_of_nil. intros [-> | [-> | [-> | []]]].
  - exact OMEGA_cubed.
  - exact (Cx_square_cubed OMEGA OMEGA_cubed).
  - exact Cx_one_cubed.
Qed.

(** X12. Every value [compute_eigvals] of [TClock], [TAdd] and [TSWAP]
    returns is an eigenvalue of the matrix of that gate, and for these
    gates and [TShift] the returned values add up to the trace of the
    matrix. *)
Theorem eigvals_belong_to_matrices (l : complex) (r : R) :
  (l ∈ TClock_compute_eigvals -> eigenvalue TClock_compute_matrix l) /\
  (l ∈ TAdd_compute_eigvals ->
   eigenvalue (as_complex complex_of_Z TAdd_compute_matrix) l) /\
  (r ∈ TSWAP_compute_eigvals -> eigenvalue (as_real TSWAP_compute_matrix) r) /\
  total TShift_compute_eigvals = trace (as_complex complex_of_Z TShift_compute_matrix) /\
  total TClock_compute_eigvals = trace TClock_compute_matrix /\
  total TAdd_compute_eigvals = trace (as_complex complex_of_Z TAdd_compute_matrix) /\
  total TSWAP_compute_eigvals = trace (as_real TSWAP_compute_matrix).
Proof.
  split; [| split; [| split]].
  - unfold TClock_compute_eigvals, TClock_compute_matrix.
    generalize OMEGA. intros [x y].
    rewrite !elem_of_cons, elem_of_nil. intros [-> | [-> | [-> | []]]].
    + exists (unit_vector 3 0). split; [reflexivity |]. split.
      * exists Cx.one. split; [left | exact complex_one_nonzero].
      * unfold_arrays. entrywise ltac:(ring).
    + exists (unit_vector 3 1). split; [reflexivity |]. split.
      * exists Cx.one. split; [right; left | exact complex_one_nonzero].
      * unfold_arrays. entrywise ltac:(ring).
    + exists (unit_vector 3 2). split; [reflexivity |]. split.
      * exists Cx.one. split; [right; right; left | exact complex_one_nonzero].
      * unfold_arrays. entrywise ltac:(ring).
  - intros Hl.
    assert (H3 : Cx.mul l (Cx.mul l l) = Cx.one).
    { apply cube_root_cases. unfold TAdd_compute_eigvals in Hl.
      rewrite !elem_of_cons, elem_of_nil in Hl. rewrite !elem_of_cons, elem_of_nil.
      tauto. }
    exists [Cx.zero; Cx.zero; Cx.zero; Cx.one; Cx.mul l l; l; Cx.zero; Cx.zero; Cx.zero].
    split; [reflexivity |]. split.
    + exists Cx.one. split; [do 3 right; left | exact complex_one_nonzero].
    + destruct l as [x y]. injection H3 as H1 H2.
      unfold_arrays. entrywise ltac:(nra).
  - unfold TSWAP_compute_eigvals.
    rewrite !elem_of_cons, elem_of_nil.
    intros Hr.
    assert (Hcases : r = 1%R \/ r = (-1)%R) by tauto. clear Hr.
    destruct Hcases as [-> | ->].
    + exists (unit_vector 9 0). split; [reflexivity |]. split.
      * exists 1%R. split; [left | cbn; lra].
      * unfold_arrays. entrywise ltac:(lra).
    + exists [0; 1; 0; -1; 0; 0; 0; 0; 0]%R. split; [reflexivity |]. split.
      * exists 1%R. split; [right; left | cbn; lra].
      * unfold_arrays. entrywise ltac:(lra).
  - unfold TShift_compute_eigvals, TClock_compute_eigvals, TAdd_compute_eigvals,
      TClock_compute_matrix.
    rewrite OMEGA_value. pose proof sqrt3_sq as Hs. revert Hs.
    generalize (sqrt 3). intros s Hs.
    repeat split; unfold_arrays; entrywise ltac:(by_square Hs).
Qed.

Lemma eigvals_belong_to_matrices_witness :
  eigenvalue TClock_compute_matrix OMEGA /\
  eigenvalue (as_complex complex_of_Z TAdd_compute_matrix) (Cx.pow OMEGA 2) /\
  eigenvalue (as_real TSWAP_compute_matrix) (-1)%R.
Proof.
  pose proof (eigvals_belong_to_matrices OMEGA (-1)%R) as (Hc & _ & Hs & _).
  pose proof (eigvals_belong_to_matrices (Cx.pow OMEGA 2) (-1)%R) as (_ & Ha & _).
  split; [| split].
  - apply Hc. unfold TClock_compute_eigvals. right. left.
  - apply Ha. unfold TAdd_compute_eigvals. right. left.
  - apply Hs. unfold TSWAP_compute_eigvals. right. left.
Defined.

(** ** Powers and adjoints *)

(** X13. [pow] is periodic in an integer exponent: [z] and [z] plus a
    multiple of the period (3 for [TShift], [TClock], [TAdd]; 2 for
    [TSWAP], [TX], [TY], [TZ], [TH], [TCNOT]) are handed on as the same
    exponent, which lies between 0 and the period, for negative [z] too. *)
Theorem pow_is_periodic {P : Type} (super_pow : value -> result P) (z k : Z) :
  (exists e : Z,
     (0 <= e < 3)%Z /\
     TShift_pow super_pow (PyInt z) = super_pow (PyInt e) /\
     TShift_pow super_pow (PyInt (z + 3 * k)) = super_pow (PyInt e) /\
     TClock_pow super_pow (PyInt z) = super_pow (PyInt e) /\
     TClock_pow super_pow (PyInt (z + 3 * k)) = super_pow (PyInt e) /\
     TAdd_pow super_pow (PyInt z) = super_pow (PyInt e) /\
     TAdd_pow super_pow (PyInt (z + 3 * k)) = super_pow (PyInt e)) /\
  (exists e : Z,
     (0 <= e < 2)%Z /\
     TSWAP_pow super_pow (PyInt z) = super_pow (PyInt e) /\
     TSWAP_pow super_pow (PyInt (z + 2 * k)) = super_pow (PyInt e) /\
     TX_pow super_pow (PyInt z) = super_pow (PyInt e) /\
     TX_pow super_pow (PyInt (z + 2 * k)) = super_pow (PyInt e) /\
     TY_pow super_pow (PyInt z) = super_pow (PyInt e) /\
     TY_pow super_pow (PyInt (z + 2 * k)) = super_pow (PyInt e) /\
     TZ_pow super_pow (PyInt z) = super_pow (PyInt e) /\
     TZ_pow super_pow (PyInt (z + 2 * k)) = super_pow (PyInt e) /\
     TH_pow super_pow (PyInt z) = super_pow (PyInt e) /\
     TH_pow super_pow (PyInt (z + 2 * k)) = super_pow (PyInt e) /\
     TCNOT_pow super_pow (PyInt z) = super_pow (PyInt e) /\
     TCNOT_pow super_pow (PyInt (z + 2 * k)) = super_pow (PyInt e)).
Proof.
  assert (H3 : ((z + 3 * k) mod 3 = z mod 3)%Z)
    by (rewrite (Z.mul_comm 3 k); apply Z.mod_add; lia).
  assert (H2 : ((z + 2 * k) mod 2 = z mod 2)%Z)
    by (rewrite (Z.mul_comm 2 k); apply Z.mod_add; lia).
  split.
  - exists (z mod 3)%Z. split; [apply Z.mod_pos_bound; lia |].
    unfold TShift_pow, TClock_pow, TAdd_pow. cbn. rewrite H3. repeat split; reflexivity.
  - exists (z mod 2)%Z. split; [apply Z.mod_pos_bound; lia |].
    unfold TSWAP_pow, TX_pow, TY_pow, TZ_pow, TH_pow, TCNOT_pow. cbn. rewrite H2.
    repeat split; reflexivity.
Qed.

Lemma insert_sorted_ascending (x : Z) (l : list Z) :
  ascending l = true -> ascending (Py.insert_sorted x l) = true.
Proof.
  induction l as [| y l IH]; intros Hl; [reflexivity |].
  cbn [Py.insert_sorted]. destruct (Z.leb_spec x y) as [Hle | Hgt].
  - cbn [ascending]. apply andb_true_iff. split; [apply Z.leb_le; exact Hle | exact Hl].
  - assert (Hl' : ascending l = true).
    { destruct l as [| y' l']; [reflexivity |]. cbn [ascending] in Hl.
      apply andb_true_iff in Hl. tauto. }
    specialize (IH Hl'). destruct l as [| y' l'].
    + cbn. apply andb_true_iff. split; [apply Z.leb_le; lia | reflexivity].
    + cbn [ascending] in Hl. apply andb_true_iff in Hl as [Hyy' _].
      cbn [Py.insert_sorted] in *. destruct (x <=? y')%Z.
      * cbn [ascending]. apply andb_true_iff. split; [apply Z.leb_le; lia | exact IH].
      * cbn [ascending]. apply andb_true_iff. split; [exact Hyy' | exact IH].
Qed.

Lemma sorted_ascending (l : list Z) : ascending (Py.sorted l) = true.
Proof.
  induction l as [| x l IH]; [reflexivity |].
  unfold Py.sorted. cbn [foldr]. apply insert_sorted_ascending. exact IH.
Qed.

Lemma ascending_sorted (l : list Z) : ascending l = true -> Py.sorted l = l.
Proof.
  induction l as [| x l IH]; intros Hl; [reflexivity |].
  unfold Py.sorted in *. cbn [foldr].
  destruct l as [| y l']; [reflexivity |].
  cbn [ascending] in Hl. apply andb_true_iff in Hl as [Hxy Hl].
  rewrite (IH Hl). cbn [Py.insert_sorted]. rewrite Hxy. reflexivity.
Qed.

Lemma sorted_idempotent (l : list Z) : Py.sorted (Py.sorted l) = Py.sorted l.
Proof. apply ascending_sorted, sorted_ascending. Qed.

Section AdjointProperties.
Context {W : Type} (Operation_init : list W -> result unit).

Lemma subspace_init_Ok_inv (property : SubspaceOp W -> result value)
    (ws : list W) (cand : value) (op : SubspaceOp W) :
  subspace_init Operation_init property ws cand = Ok op ->
  exists l sub,
    cand = PySeq l /\
    property {| wires := []; _subspace := cand; _hyperparameters := ∅ |} = Ok sub /\
    Operation_init ws = Ok tt /\
    op = {| wires := ws; _subspace := cand;
            _hyperparameters := {[ "subspace"%string := sub ]} |}.
Proof.
  unfold subspace_init.
  destruct cand as [| | | l]; simpl; try discriminate.
  destruct (property _) as [sub |]; cbn; [| discriminate].
  destruct (Operation_init ws) as [[] |]; cbn; [| discriminate].
  intros [= <-]. exists l, sub. repeat split.
Qed.

Lemma sorted_gate_adjoint (property : SubspaceOp W -> result value)
    (ws : list W) (cand : value) (op : SubspaceOp W) :
  (forall self, property self = tuple_sorted (_subspace self)) ->
  subspace_init Operation_init property ws cand = Ok op ->
  exists op',
    (sub ← property op; subspace_init Operation_init property (wires op) sub) = Ok op' /\
    wires op' = wires op /\ _hyperparameters op' = _hyperparameters op /\
    (sub ← property op'; subspace_init Operation_init property (wires op') sub) = Ok op'.
Proof.
  intros Hprop Hop.
  apply subspace_init_Ok_inv in Hop as (l & sub & -> & Hp & Hinit & ->).
  rewrite Hprop in Hp. cbn in Hp. injection Hp as <-.
  exists {| wires := ws; _subspace := PySeq (Py.sorted l);
            _hyperparameters := {[ "subspace"%string := PySeq (Py.sorted l) ]} |}.
  assert (Hrun : forall s,
             (sub ← property {| wires := ws; _subspace := PySeq s;
                                _hyperparameters :=
                                  {[ "subspace"%string := PySeq (Py.sorted l) ]} |};
              subspace_init Operation_init property ws sub)
             = Ok {| wires := ws; _subspace := PySeq (Py.sorted s);
                     _hyperparameters :=
                       {[ "subspace"%string := PySeq (Py.sorted (Py.sorted s)) ]} |}).
  { intros s. rewrite Hprop. cbn. unfold subspace_init. cbn.
    rewrite Hprop. cbn. rewrite Hinit. reflexivity. }
  cbn [wires _hyperparameters]. split; [| split; [reflexivity | split; [reflexivity |]]].
  - rewrite Hrun, sorted_idempotent. reflexivity.
  - rewrite Hrun, !sorted_idempotent. reflexivity.
Qed.

(** X14. The adjoint of a [TX], [TY], [TH] or [TCNOT] operator that was
    built is an operator on the same wires with the same hyperparameters,
    and taking the adjoint of that one gives it back; the adjoint of a
    [TZ] operator is the operator itself; [adjoint] of [TS] and [TT]
    raises [AdjointUndefinedError]. *)
Theorem adjoint_keeps_the_gate (ws : list W) (s cv : option value)
    (op : SubspaceOp W) (cop : ControlledOp W) :
  (TX_init Operation_init ws s = Ok op ->
   exists op', TX_adjoint Operation_init op = Ok op' /\
               wires op' = wires op /\ _hyperparameters op' = _hyperparameters op /\
               TX_adjoint Operation_init op' = Ok op') /\
  (TY_init Operation_init ws s = Ok op ->
   exists op', TY_adjoint Operation_init op = Ok op' /\
               wires op' = wires op /\ _hyperparameters op' = _hyperparameters op /\
               TY_adjoint Operation_init op' = Ok op') /\
  (TH_init Operation_init ws s = Ok op ->
   exists op', TH_adjoint Operation_init op = Ok op' /\
               wires op' = wires op /\ _hyperparameters op' = _hyperparameters op /\
               TH_adjoint Operation_init op' = Ok op') /\
  (TZ_init Operation_init ws s = Ok op -> TZ_adjoint Operation_init op = Ok op) /\
  (TCNOT_init Operation_init ws s cv = Ok cop ->
   exists cop', TCNOT_adjoint Operation_init cop = Ok cop' /\
                c_wires cop' = c_wires cop /\
                c_hyperparameters cop' = c_hyperparameters cop /\
                TCNOT_adjoint Operation_init cop' = Ok cop') /\
  TS_adjoint op = Raise AdjointUndefinedError /\
  TT_adjoint op = Raise AdjointUndefinedError.
Proof.
  split; [| split; [| split; [| split; [| split; [| split; reflexivity]]]]].
  - intros Hop. exact (sorted_gate_adjoint TX_subspace ws _ op (fun _ => eq_refl) Hop).
  - intros Hop. exact (sorted_gate_adjoint TY_subspace ws _ op (fun _ => eq_refl) Hop).
  - intros Hop. exact (sorted_gate_adjoint TH_subspace ws _ op (fun _ => eq_refl) Hop).
  - intros Hop. apply subspace_init_Ok_inv in Hop as (l & sub & Hl & Hp & Hinit & ->).
    rewrite Hl in *. unfold TZ_subspace, tuple_of in Hp. cbn in Hp. injection Hp as <-.
    unfold TZ_adjoint, TZ_init, subspace_init, TZ_subspace, tuple_of. cbn.
    rewrite Hinit. reflexivity.
  - unfold TCNOT_init. generalize (default (PySeq [0; 1]%Z) s) as sub.
    generalize (default (PyInt 2) cv) as c. intros c sub.
    destruct sub as [| | | l]; cbn; try discriminate.
    unfold TCNOT_control_value. cbn [c_control_value].
    destruct (Py.int c) as [z |] eqn:Hz; cbn; [| discriminate].
    destruct (Operation_init ws) as [[] |] eqn:Hinit; cbn; [| discriminate].
    intros [= <-].
    exists {| c_wires := ws; c_subspace := PySeq (Py.sorted l); c_control_value := PyInt z;
              c_hyperparameters :=
                <[ "control_value"%string := PyInt z ]>
                  {[ "subspace"%string := PySeq (Py.sorted l) ]} |}.
    unfold TCNOT_adjoint, TCNOT_init, TCNOT_control_value. cbn. rewrite Hz. cbn.
    rewrite Hinit. cbn. rewrite !sorted_idempotent. repeat split.
Qed.

End AdjointProperties.

Lemma adjoint_keeps_the_gate_witness :
  exists op' : SubspaceOp nat,
    TX_adjoint accept_wires
      {| wires := [0%nat]; _subspace := PySeq [2; 0]%Z;
         _hyperparameters := {[ "subspace"%string := PySeq [0; 2]%Z ]} |}
    = Ok op' /\
    wires op' = [0%nat] /\
    _hyperparameters op' = {[ "subspace"%string := PySeq [0; 2]%Z ]} /\
    TX_adjoint accept_wires op' = Ok op'.
Proof.
  pose proof (adjoint_keeps_the_gate (@accept_wires nat) [0%nat]
                (Some (PySeq [2; 0]%Z)) None
                {| wires := [0%nat]; _subspace := PySeq [2; 0]%Z;
                   _hyperparameters := {[ "subspace"%string := PySeq [0; 2]%Z ]} |}
                {| c_wires := []; c_subspace := PyNone; c_control_value := PyNone;
                   c_hyperparameters := ∅ |}) as (Hx & _).
  apply Hx. reflexivity.
Defined.

(** ** Validation at construction and at matrix time *)

Lemma length_insert_sorted (x : Z) (l : list Z) :
  length (Py.insert_sorted x l) = S (length l).
Proof.
  induction l as [| y l IH]; [reflexivity |].
  cbn [Py.insert_sorted]. destruct (x <=? y)%Z; cbn [length]; [reflexivity |].
  rewrite IH. reflexivity.
Qed.

Lemma length_sorted (l : list Z) : length (Py.sorted l) = length l.
Proof.
  induction l as [| x l IH]; [reflexivity |].
  unfold Py.sorted in *. cbn [foldr length]. rewrite length_insert_sorted, IH. reflexivity.
Qed.

Lemma first_failure_sorted (l : list Z) :
  first_failure (PySeq (Py.sorted l)) = first_failure (PySeq l).
Proof.
  destruct (decide (length l = 2%nat)) as [H2 | Hn2].
  - destruct l as [| a [| b [| c l]]]; try discriminate. clear H2.
    unfold Py.sorted. cbn [foldr Py.insert_sorted].
    destruct (Z.leb_spec a b) as [Hle | Hgt]; [reflexivity |].
    cbn. destruct (in_012 a), (in_012 b); cbn; try reflexivity.
    destruct (Z.eqb_spec a b), (Z.eqb_spec b a); try reflexivity; lia.
  - cbn. rewrite length_sorted.
    destruct (Nat.eqb_spec (length l) 2); [contradiction | reflexivity].
Qed.

(** X15. The constructors of [TX] and [TZ] accept every sequence of
    integers as subspace, malformed ones included; the checks wait for the
    matrix, which then raises the exception of the first failing check. *)
Theorem validation_waits_for_the_matrix {W : Type}
    (Operation_init : list W -> result unit) (ws : list W) (l : list Z) (f : failure) :
  Operation_init ws = Ok tt ->
  first_failure (PySeq l) = Some f ->
  (exists op, TX_init Operation_init ws (Some (PySeq l)) = Ok op /\
              TX_matrix op = Raise (compute_matrix_exn f)) /\
  (exists op, TZ_init Operation_init ws (Some (PySeq l)) = Ok op /\
              TZ_matrix op = Raise (compute_matrix_exn f)).
Proof.
  intros Hinit Hf. split.
  - eexists. split.
    + unfold TX_init, subspace_init. cbn. rewrite Hinit. reflexivity.
    + unfold TX_matrix. cbn [_hyperparameters]. rewrite lookup_singleton_eq.
      apply TX_compute_matrix_failure. rewrite first_failure_sorted. exact Hf.
  - eexists. split.
    + unfold TZ_init, subspace_init. cbn. rewrite Hinit. reflexivity.
    + unfold TZ_matrix. cbn [_hyperparameters]. rewrite lookup_singleton_eq.
      apply TZ_compute_matrix_failure. exact Hf.
Qed.

Lemma validation_waits_for_the_matrix_witness :
  exists op : SubspaceOp nat,
    TX_init accept_wires [0%nat] (Some (PySeq [1; 1]%Z)) = Ok op /\
    TX_matrix op = Raise (ValueError subspace_unique_msg).
Proof.
  exact (proj1 (validation_waits_for_the_matrix (@accept_wires nat) [0%nat] [1; 1]%Z
                  NotDistinct eq_refl eq_refl)).
Defined.

(** ** More on basis states *)

Section BasisStateErrors.
Context {W : Type} `{EqDecision W}.

Lemma existsb_not_trit (n : list Z) :
  existsb (fun i => negb (in_012 i)) n = false <-> Forall trit n.
Proof.
  rewrite Forall_forall. split.
  - intros Hex i Hi. apply in_012_trit. apply list_elem_of_In in Hi.
    destruct (in_012 i) eqn:Hin; [reflexivity |].
    assert (Htrue : existsb (fun i => negb (in_012 i)) n = true)
      by (apply existsb_exists; exists i; rewrite Hin; auto).
    congruence.
  - intros Hn. apply not_true_is_false. intros Hex.
    apply existsb_exists in Hex as (i & Hi & Hneg).
    apply list_elem_of_In, Hn, in_012_trit in Hi. rewrite Hi in Hneg. discriminate.
Qed.

Lemma contains_wires_spec (ws sub : list W) :
  contains_wires ws sub = true <-> Forall (fun w => w ∈ ws) sub.
Proof.
  unfold contains_wires. rewrite forallb_forall, Forall_forall. split.
  - intros Hc w Hw. apply list_elem_of_In, Hc in Hw. apply bool_decide_eq_true_1 in Hw. exact Hw.
  - intros Hc w Hw. apply bool_decide_eq_true_2, Hc, list_elem_of_In, Hw.
Qed.

Lemma state_vector_returns (n : list Z) (ws : list W) (wire_order : option (list W)) :
  Forall trit n -> length n = length ws -> NoDup ws -> admissible_order ws wire_order ->
  Py.raises (QutritBasisState_state_vector
               {| qbs_parameters := n; qbs_wires := ws |} wire_order) = false.
Proof.
  intros Hn Hlen Hnd Hadm.
  rewrite (state_vector_indices n ws wire_order Hn Hlen Hnd Hadm).
  set (target := default ws wire_order).
  set (indices := map (fun w => placed n ws w 0%Z) target).
  assert (Hind : Forall trit indices).
  { apply Forall_forall. intros v Hv.
    apply list_elem_of_In, in_map_iff in Hv as (w & <- & _). apply placed_trit. exact Hn. }
  unfold nd.setitem, nd.zeros. cbn [shape data].
  replace (length target) with (length indices) by (unfold indices; apply length_map).
  rewrite (ravel_trits indices Hind). reflexivity.
Qed.

(** X16. [QutritBasisState.state_vector] checks in this order: an entry
    outside {0, 1, 2} raises the first [ValueError]; then a number of
    entries different from the number of wires raises the second one;
    then a wire order that does not contain every wire of the operator
    raises a [WireError]. With duplicate-free operator wires it returns
    exactly when all entries are trits, there is one per wire, and the
    wire order is left out or is duplicate-free and contains the wires. *)
Theorem basis_state_vector_checks (n : list Z) (ws : list W)
    (wire_order : option (list W)) :
  let r := QutritBasisState_state_vector
             {| qbs_parameters := n; qbs_wires := ws |} wire_order in
  (~ Forall trit n ->
   r = Raise (ValueError "QutritBasisState parameter must consist of 0, 1 or 2 integers.")) /\
  (Forall trit n -> length n <> length ws ->
   r = Raise (ValueError "QutritBasisState parameter and wires must be of equal length.")) /\
  (Forall trit n -> length n = length ws ->
   forall wo, wire_order = Some wo -> NoDup wo -> ~ Forall (fun w => w ∈ wo) ws ->
   r = Raise (WireError "Custom wire_order must contain all QutritBasisState wires")) /\
  (NoDup ws ->
   (Py.raises r = false <->
    Forall trit n /\ length n = length ws /\ admissible_order ws wire_order)).
Proof.
  intros r. subst r. unfold QutritBasisState_state_vector. cbn [qbs_parameters qbs_wires].
  destruct (existsb (fun i => negb (in_012 i)) n) eqn:Hex.
  { assert (Hnt : ~ Forall trit n)
      by (intros Hn; apply existsb_not_trit in Hn; congruence).
    split; [intros _; reflexivity |]. split; [tauto |]. split; [tauto |].
    intros _. split; [discriminate | tauto]. }
  apply existsb_not_trit in Hex.
  destruct (Nat.eqb_spec (length ws) (length n)) as [Hlen | Hlen]; cbn [negb].
  2:{ split; [tauto |]. split; [intros _ _; reflexivity |].
      split; [intros _ Heq; congruence |].
      intros _. split; [discriminate | intros (_ & Hl & _); congruence]. }
  split; [tauto |]. split; [intros _ Hne; congruence |]. split.
  - intros _ _ wo -> Hwo Hsub. unfold Wires. rewrite (bool_decide_eq_true_2 _ Hwo). cbn.
    destruct (contains_wires wo ws) eqn:Hc; [| reflexivity].
    apply contains_wires_spec in Hc. contradiction.
  - intros Hnd. split.
    + intros Hr. split; [exact Hex |]. split; [congruence |].
      destruct wire_order as [wo |]; [| exact I]. unfold Wires in Hr.
      destruct (bool_decide (NoDup wo)) eqn:Hwo; [| discriminate].
      apply bool_decide_eq_true_1 in Hwo. cbn in Hr.
      destruct (contains_wires wo ws) eqn:Hc; [| discriminate].
      apply contains_wires_spec in Hc. split; assumption.
    + intros (Hn & Hl & Hadm).
      pose proof (state_vector_returns n ws wire_order Hn Hl Hnd Hadm) as Hret.
      unfold QutritBasisState_state_vector in Hret. cbn [qbs_parameters qbs_wires] in Hret.
      apply existsb_not_trit in Hex. rewrite Hex in Hret.
      rewrite <- Hl, Nat.eqb_refl in Hret. cbn [negb] in Hret. rewrite Hl in Hret.
      exact Hret.
Qed.

(** X17. Asking a basis state for its own wire order gives the state
    vector that asking for no wire order gives. *)
Theorem basis_state_own_order (n : list Z) (ws : list W) :
  Forall trit n -> length n = length ws -> NoDup ws ->
  QutritBasisState_state_vector {| qbs_parameters := n; qbs_wires := ws |} (Some ws)
  = QutritBasisState_state_vector {| qbs_parameters := n; qbs_wires := ws |} None.
Proof.
  intros Hn Hlen Hnd.
  rewrite (state_vector_indices n ws (Some ws) Hn Hlen Hnd).
  - rewrite (state_vector_indices n ws None Hn Hlen Hnd I). reflexivity.
  - split; [exact Hnd |]. apply Forall_forall. auto.
Qed.

End BasisStateErrors.

Lemma basis_state_vector_checks_witness :
  QutritBasisState_state_vector
    {| qbs_parameters := [0; 3]%Z; qbs_wires := [0%nat] |} None
  = Raise (ValueError "QutritBasisState parameter must consist of 0, 1 or 2 integers.") /\
  QutritBasisState_state_vector
    {| qbs_parameters := [0; 1]%Z; qbs_wires := [0%nat] |} None
  = Raise (ValueError "QutritBasisState parameter and wires must be of equal length.") /\
  QutritBasisState_state_vector
    {| qbs_parameters := [0; 1]%Z; qbs_wires := [0%nat; 1%nat] |} (Some [1%nat; 2%nat])
  = Raise (WireError "Custom wire_order must contain all QutritBasisState wires").
Proof.
  split; [| split].
  - apply (proj1 (basis_state_vector_checks [0; 3]%Z [0%nat] None)).
    intros Hn. apply Forall_cons in Hn as [_ Hn]. apply Forall_cons in Hn as [H3 _].
    unfold trit in H3. lia.
  - apply (proj1 (proj2 (basis_state_vector_checks [0; 1]%Z [0%nat] None))).
    + repeat constructor; unfold trit; lia.
    + cbn. lia.
  - apply (proj1 (proj2 (proj2 (basis_state_vector_checks [0; 1]%Z [0%nat; 1%nat]
                                  (Some [1%nat; 2%nat]))))
             ltac:(repeat constructor; unfold trit; lia) eq_refl [1%nat; 2%nat] eq_refl).
    + apply (bool_decide_unpack _). reflexivity.
    + intros Hsub. apply Forall_cons in Hsub as [H0 _].
      rewrite !elem_of_cons, elem_of_nil in H0. lia.
Defined.

Lemma basis_state_own_order_witness :
  QutritBasisState_state_vector
    {| qbs_parameters := [2; 0]%Z; qbs_wires := [5%nat; 3%nat] |} (Some [5%nat; 3%nat])
  = QutritBasisState_state_vector
      {| qbs_parameters := [2; 0]%Z; qbs_wires := [5%nat; 3%nat] |} None.
Proof.
  apply basis_state_own_order.
  - repeat constructor; unfold trit; lia.
  - reflexivity.
  - apply (bool_decide_unpack _). reflexivity.
Defined.

(** ** More on amplitude vectors *)

Lemma pow3_pos (k : nat) : (0 < 3 ^ k)%nat.
Proof. induction k as [| k IH]; cbn; lia. Qed.

Section AmplitudeVectors.
Context {W : Type} `{EqDecision W}.

Lemma state_vector_reshape (state : tensor complex) (ws : list W) (batch : option nat) :
  shape state = amplitude_shape (length ws) batch -> well_formed state ->
  batch <> Some 0%nat ->
  nd.reshape state
    (truthy (batch_size {| qsv_parameters := state; qsv_wires := ws |}))
    (replicate (length ws) 3%nat)
  = Ok {| shape := state_vector_shape (length ws) batch; data := data state |}.
Proof.
  intros Hshape Hwf Hb. unfold well_formed in Hwf. rewrite Hshape in Hwf.
  unfold batch_size. cbn [qsv_parameters]. rewrite Hshape.
  pose proof (pow3_pos (length ws)) as Hpos.
  destruct batch as [[| b] |]; [congruence | |]; cbn [amplitude_shape truthy] in *;
    unfold nd.reshape; rewrite size_of_replicate_3.
  - rewrite !size_of_cons in Hwf. cbn [nd.size_of foldr] in Hwf. rewrite Hwf.
    replace (S b * (3 ^ length ws * 1))%nat with (S b * 3 ^ length ws)%nat by lia.
    rewrite Nat.Div0.mod_mul, Nat.div_mul by lia.
    destruct (Nat.eqb_spec (3 ^ length ws) 0); [lia |]. reflexivity.
  - rewrite size_of_cons in Hwf. cbn [nd.size_of foldr] in Hwf.
    replace (3 ^ length ws =? length (data state))%nat with true
      by (symmetry; apply Nat.eqb_eq; lia).
    reflexivity.
Qed.

Lemma own_wires_result (state : tensor complex) (ws : list W) (batch : option nat) :
  shape state = amplitude_shape (length ws) batch -> well_formed state ->
  batch <> Some 0%nat -> NoDup ws ->
  QutritStateVector_state_vector {| qsv_parameters := state; qsv_wires := ws |} (Some ws)
  = Ok {| shape := state_vector_shape (length ws) batch; data := data state |}.
Proof.
  intros Hshape Hwf Hb Hnd.
  unfold QutritStateVector_state_vector. cbn [qsv_wires qsv_parameters].
  rewrite (state_vector_reshape state ws batch Hshape Hwf Hb). cbn.
  unfold Wires. rewrite (bool_decide_eq_true_2 _ Hnd). cbn.
  rewrite (bool_decide_eq_true_2 _ eq_refl). reflexivity.
Qed.

(** X18. For amplitudes that fill the shape [(3**k,)] or
    [(batch, 3**k)] with a batch that is not empty,
    [QutritStateVector.state_vector] without a wire order, and with the
    operator's own wire order, returns the same amplitudes in the shape
    [(3,) * k], behind the batch axis if there is one. *)
Theorem amplitude_vector_own_order (state : tensor complex) (ws : list W)
    (batch : option nat) :
  shape state = amplitude_shape (length ws) batch -> well_formed state ->
  batch <> Some 0%nat -> NoDup ws ->
  let self := {| qsv_parameters := state; qsv_wires := ws |} in
  let expected :=
    Ok {| shape := state_vector_shape (length ws) batch; data := data state |} in
  QutritStateVector_state_vector self None = expected /\
  QutritStateVector_state_vector self (Some ws) = expected.
Proof.
  intros Hshape Hwf Hb Hnd self expected. subst self expected.
  unfold QutritStateVector_state_vector. cbn [qsv_wires qsv_parameters].
  split; [| exact (own_wires_result state ws batch Hshape Hwf Hb Hnd)].
  rewrite (state_vector_reshape state ws batch Hshape Hwf Hb). reflexivity.
Qed.

(** X19. On such amplitudes, a duplicate-free wire order that differs
    from the operator's wires and does not contain all of them raises the
    [WireError] of the containment test. *)
Theorem amplitude_vector_missing_wire (state : tensor complex) (ws wire_order : list W)
    (batch : option nat) :
  shape state = amplitude_shape (length ws) batch -> well_formed state ->
  batch <> Some 0%nat ->
  NoDup wire_order -> ~ Forall (fun w => w ∈ wire_order) ws ->
  QutritStateVector_state_vector {| qsv_parameters := state; qsv_wires := ws |}
    (Some wire_order)
  = Raise (WireError "Custom wire_order must contain all QutritStateVector wires").
Proof.
  intros Hshape Hwf Hb Hwo Hsub.
  unfold QutritStateVector_state_vector. cbn [qsv_wires qsv_parameters].
  rewrite (state_vector_reshape state ws batch Hshape Hwf Hb). cbn.
  unfold Wires. rewrite (bool_decide_eq_true_2 _ Hwo). cbn.
  assert (Hne : wire_order <> ws).
  { intros ->. apply Hsub. apply Forall_forall. auto. }
  rewrite (bool_decide_eq_false_2 _ Hne).
  destruct (contains_wires wire_order ws) eqn:Hc; [| reflexivity].
  apply contains_wires_spec in Hc. contradiction.
Qed.

End AmplitudeVectors.

Lemma amplitude_vector_own_order_witness :
  QutritStateVector_state_vector
    {| qsv_parameters :=
         {| shape := [2%nat; 3%nat];
            data := [Cx.one; Cx.zero; Cx.zero; Cx.zero; Cx.j; Cx.zero] |};
       qsv_wires := [7%nat] |} (Some [7%nat])
  = Ok {| shape := [2%nat; 3%nat];
          data := [Cx.one; Cx.zero; Cx.zero; Cx.zero; Cx.j; Cx.zero] |}.
Proof.
  refine (proj2 (amplitude_vector_own_order
                   {| shape := [2%nat; 3%nat];
                      data := [Cx.one; Cx.zero; Cx.zero; Cx.zero; Cx.j; Cx.zero] |}
                   [7%nat] (Some 2%nat) eq_refl eq_refl _ _)).
  - discriminate.
  - apply (bool_decide_unpack _). reflexivity.
Defined.

Lemma amplitude_vector_missing_wire_witness :
  QutritStateVector_state_vector
    {| qsv_parameters := {| shape := [3%nat]; data := [Cx.one; Cx.zero; Cx.zero] |};
       qsv_wires := [0%nat] |} (Some [1%nat; 2%nat])
  = Raise (WireError "Custom wire_order must contain all QutritStateVector wires").
Proof.
  refine (amplitude_vector_missing_wire
            {| shape := [3%nat]; data := [Cx.one; Cx.zero; Cx.zero] |}
            [0%nat] [1%nat; 2%nat] None eq_refl eq_refl _ _ _).
  - discriminate.
  - apply (bool_decide_unpack _). reflexivity.
  - intros Hsub. apply Forall_cons in Hsub as [H0 _].
    rewrite !elem_of_cons, elem_of_nil in H0. lia.
Defined.

(** ** Reordering the wires of an amplitude vector *)

Lemma length_indices3 (k : nat) :
  length (nd.indices (replicate k 3%nat)) = nd.size_of (replicate k 3%nat).
Proof.
  induction k as [| k IH]; [reflexivity |].
  cbn [replicate]. rewrite size_of_cons. cbn [nd.indices seq flat_map].
  rewrite !length_app, !length_map, IH. cbn [length]. lia.
Qed.

Lemma indices_lookup3 (idx : list nat) :
  Forall (fun i => i < 3)%nat idx ->
  nd.indices (replicate (length idx) 3%nat)
    !! nd.offset (replicate (length idx) 3%nat) idx = Some idx.
Proof.
  induction 1 as [| i idx Hi Hidx IH]; [reflexivity |].
  cbn [length replicate]. rewrite offset_cons.
  pose proof (offset_bound idx Hidx) as Hb.
  pose proof (length_indices3 (length idx)) as Hlen.
  set (I := nd.indices (replicate (length idx) 3%nat)) in *.
  set (S3 := nd.size_of (replicate (length idx) 3%nat)) in *.
  set (o := nd.offset (replicate (length idx) 3%nat) idx) in *.
  change (nd.indices (3%nat :: replicate (length idx) 3%nat))
    with (map (cons 0%nat) I ++ map (cons 1%nat) I ++ map (cons 2%nat) I ++ []).
  destruct i as [| [| [| i]]]; [| | | lia].
  - rewrite lookup_app_l by (rewrite length_map; lia).
    replace (0 * S3 + o)%nat with o by lia. rewrite lookup_map, IH. reflexivity.
  - rewrite lookup_app_r by (rewrite length_map; lia).
    rewrite length_map, Hlen. replace (1 * S3 + o - S3)%nat with o by lia.
    rewrite lookup_app_l by (rewrite length_map; lia).
    rewrite lookup_map, IH. reflexivity.
  - rewrite lookup_app_r by (rewrite length_map; lia).
    rewrite length_map, Hlen.
    rewrite lookup_app_r by (rewrite length_map; lia).
    rewrite length_map, Hlen. replace (2 * S3 + o - S3 - S3)%nat with o by lia.
    rewrite lookup_app_l by (rewrite length_map; lia).
    rewrite lookup_map, IH. reflexivity.
Qed.

Section Reordering.
Context {W : Type} `{EqDecision W}.

Lemma wires_difference_nil (wire_order ws : list W) :
  Forall (fun w => w ∈ ws) wire_order -> wires_difference wire_order ws = [].
Proof.
  unfold wires_difference. induction 1 as [| w wo Hw _ IH]; [reflexivity |].
  rewrite filter_cons. destruct (decide (w ∉ ws)); [contradiction | exact IH].
Qed.

Lemma wire_position_injective (ws : list W) (w y : W) :
  w ∈ ws -> y ∈ ws -> wire_position ws w = wire_position ws y -> w = y.
Proof.
  intros Hw Hy. unfold wire_position.
  destruct (index_Ok ws w Hw) as (k & -> & Hk).
  destruct (index_Ok ws y Hy) as (k' & -> & Hk').
  intros <-. congruence.
Qed.

Lemma position_of_wire (ws wire_order : list W) (w : W) :
  Forall (fun y => y ∈ ws) wire_order -> w ∈ wire_order ->
  nd.position (wire_position ws w) (map (wire_position ws) wire_order)
  = wire_position wire_order w.
Proof.
  induction 1 as [| y wo Hy Hsub IH]; intros Hw; [inversion Hw |].
  cbn [map nd.position].
  destruct (decide (y = w)) as [-> | Hne].
  - rewrite Nat.eqb_refl. unfold wire_position. cbn [Py.index].
    rewrite decide_True by reflexivity. reflexivity.
  - apply elem_of_cons in Hw as [-> | Hw]; [congruence |].
    assert (Hws : w ∈ ws) by (rewrite Forall_forall in Hsub; auto).
    destruct (Nat.eqb_spec (wire_position ws w) (wire_position ws y)) as [Heq | _].
    + apply wire_position_injective in Heq; [congruence | assumption | assumption].
    + rewrite (IH Hw). unfold wire_position. cbn [Py.index].
      rewrite decide_False by exact Hne.
      destruct (index_Ok wo w Hw) as (k & -> & _). reflexivity.
Qed.

(** X20. Reordering keeps every amplitude with its assignment of trits
    to wires. For an unbatched state and a wire order that is a
    rearrangement of the operator's wires, [state_vector] returns an array
    of shape [(3,) * k] whose entry at an index tuple, read along the wire
    order, is the amplitude the state has at the same trits read along the
    operator's wires. *)
Theorem reordering_keeps_amplitudes (state : tensor complex) (ws wire_order : list W)
    (idx : list nat) :
  shape state = [(3 ^ length ws)%nat] -> well_formed state ->
  NoDup ws -> wire_order ≡ₚ ws ->
  length idx = length ws -> Forall (fun i => i < 3)%nat idx ->
  exists t,
    QutritStateVector_state_vector {| qsv_parameters := state; qsv_wires := ws |}
      (Some wire_order) = Ok t /\
    shape t = replicate (length ws) 3%nat /\
    nd.entry Cx.zero t idx
    = nd.entry Cx.zero {| shape := replicate (length ws) 3%nat; data := data state |}
        (map (fun w => default 0%nat (idx !! wire_position wire_order w)) ws).
Proof.
  intros Hshape Hwf Hnd Hperm Hidx Hlt.
  assert (Hwo : NoDup wire_order) by (rewrite Hperm; exact Hnd).
  assert (Hsub : Forall (fun w => w ∈ ws) wire_order)
    by (apply Forall_forall; intros w Hw; rewrite <- Hperm; exact Hw).
  assert (Hsup : Forall (fun w => w ∈ wire_order) ws)
    by (apply Forall_forall; intros w Hw; rewrite Hperm; exact Hw).
  assert (Hlen : length wire_order = length ws) by (rewrite Hperm; reflexivity).
  destruct (decide (wire_order = ws)) as [-> | Hne].
  { assert (Hown := own_wires_result state ws None Hshape Hwf
                        ltac:(discriminate) Hnd).
    eexists. split; [exact Hown |]. split; [reflexivity |].
    f_equal. symmetry. apply list_eq. intros a. rewrite lookup_map.
    destruct (ws !! a) as [w |] eqn:Ha; cbn.
    - unfold wire_position. rewrite (index_lookup ws a w Hnd Ha).
      destruct (lookup_lt_is_Some_2 idx a) as [i Hi];
        [rewrite Hidx; eapply lookup_lt_Some; exact Ha |].
      rewrite Hi. reflexivity.
    - symmetry. apply lookup_ge_None. rewrite Hidx. apply lookup_ge_None. exact Ha. }
  unfold QutritStateVector_state_vector. cbn [qsv_wires qsv_parameters].
  rewrite (state_vector_reshape state ws None Hshape Hwf) by discriminate.
  cbn [state_vector_shape]. cbn.
  unfold Wires. rewrite (bool_decide_eq_true_2 _ Hwo). cbn.
  rewrite (bool_decide_eq_false_2 _ Hne).
  rewrite (proj2 (contains_wires_spec wire_order ws) Hsup). cbn [negb].
  rewrite (wires_difference_nil wire_order ws Hsub). cbn [foldl]. rewrite app_nil_r.
  rewrite (mapM_index ws wire_order Hsub). cbn.
  set (axes := map (wire_position ws) wire_order).
  set (op := {| shape := replicate (length ws) 3%nat; data := data state |}).
  assert (Haxes_lt : Forall (fun a => a < length ws)%nat axes).
  { unfold axes. apply Forall_forall. intros a Ha.
    apply list_elem_of_In, in_map_iff in Ha as (w & <- & Hw).
    rewrite Forall_forall in Hsub. apply list_elem_of_In, Hsub in Hw.
    unfold wire_position. destruct (index_Ok ws w Hw) as (k & -> & Hk).
    eapply lookup_lt_Some. exact Hk. }
  assert (Hnew : map (fun a => default 0%nat (replicate (length ws) 3%nat !! a)) axes
                 = replicate (length ws) 3%nat).
  { assert (Hlen_axes : length axes = length ws)
      by (unfold axes; rewrite length_map; exact Hlen).
    transitivity (replicate (length axes) 3%nat); [| rewrite Hlen_axes; reflexivity].
    clear -Haxes_lt.
    induction Haxes_lt as [| a axes Ha _ IH]; [reflexivity |].
    cbn [map length replicate]. rewrite IH.
    rewrite lookup_replicate_2 by exact Ha. reflexivity. }
  assert (Hb : truthy (batch_size {| qsv_parameters := state; qsv_wires := ws |}) = false)
    by (unfold batch_size; cbn [qsv_parameters]; rewrite Hshape; reflexivity).
  rewrite Hb. unfold nd.transpose. subst op. cbn [shape]. rewrite length_replicate.
  replace (nd.is_axes (length ws) axes) with true.
  2:{ symmetry. unfold nd.is_axes. apply andb_true_iff. split.
      - apply Nat.eqb_eq. unfold axes. rewrite length_map. exact Hlen.
      - apply forallb_forall. intros a Ha. apply bool_decide_eq_true_2.
        apply in_seq in Ha.
        destruct (lookup_lt_is_Some_2 ws a) as [w Hw]; [lia |].
        apply list_elem_of_In, in_map_iff. exists w. split.
        + unfold wire_position. rewrite (index_lookup ws a w Hnd Hw). reflexivity.
        + apply list_elem_of_In. rewrite Hperm. eapply list_elem_of_lookup_2. exact Hw. }
  rewrite Hnew. eexists. split; [reflexivity |]. cbn [shape]. split; [reflexivity |].
  unfold nd.entry at 1. cbn [shape data].
  rewrite lookup_map. rewrite <- Hidx, (indices_lookup3 idx Hlt). cbn.
  f_equal. rewrite Hidx. apply list_eq. intros a. rewrite !lookup_map.
  destruct (ws !! a) as [w |] eqn:Ha; cbn.
  - assert (Halt : (a < length ws)%nat) by (eapply lookup_lt_Some; exact Ha).
    rewrite lookup_seq_lt by exact Halt. cbn.
    replace a with (wire_position ws w) at 1
      by (unfold wire_position; rewrite (index_lookup ws a w Hnd Ha); reflexivity).
    unfold axes. rewrite (position_of_wire ws wire_order w Hsub); [reflexivity |].
    rewrite Hperm. eapply list_elem_of_lookup_2. exact Ha.
  - apply lookup_ge_None in Ha. rewrite lookup_seq_ge by exact Ha. reflexivity.
Qed.

End Reordering.

Lemma reordering_keeps_amplitudes_witness :
  exists t,
    QutritStateVector_state_vector
      {| qsv_parameters :=
           {| shape := [9%nat];
              data := [Cx.zero; Cx.zero; Cx.zero; Cx.zero; Cx.zero; Cx.j;
                       Cx.zero; Cx.zero; Cx.zero] |};
         qsv_wires := [0%nat; 1%nat] |}
      (Some [1%nat; 0%nat]) = Ok t /\
    shape t = [3%nat; 3%nat] /\
    nd.entry Cx.zero t [2%nat; 1%nat] = Cx.j.
Proof.
  refine (reordering_keeps_amplitudes
            {| shape := [9%nat];
               data := [Cx.zero; Cx.zero; Cx.zero; Cx.zero; Cx.zero; Cx.j;
                        Cx.zero; Cx.zero; Cx.zero] |}
            [0%nat; 1%nat] [1%nat; 0%nat] [2%nat; 1%nat] eq_refl eq_refl _ _ eq_refl _).
  - apply (bool_decide_unpack _). reflexivity.
  - apply perm_swap.
  - repeat constructor; lia.
Defined.

(** ** The constructor of an amplitude vector *)

(** X21. [QutritStateVector.__init__] on amplitudes of shape [(n,)] or
    [(batch, n)] that the base constructor accepts: it raises the shape
    [ValueError] when [n] is not [3**k], whatever the norm is; for
    [n = 3**k] it raises the norm [ValueError] when the amplitudes, in
    their row form, are concrete and fail the norm test, and otherwise
    returns the operator with the amplitudes as they were given. An
    operator it returns, on amplitudes that fill their shape and are not
    an empty batch, has a state vector. *)
Theorem amplitude_vector_constructor {W : Type} `{EqDecision W}
    (StatePrepBase_init : tensor complex -> list W -> result unit)
    (is_abstract norm_is_one : tensor complex -> bool)
    (state : tensor complex) (ws : list W) (n : nat) (batch : option nat) :
  shape state = match batch with None => [n] | Some b => [b; n] end ->
  StatePrepBase_init state ws = Ok tt ->
  let param :=
    match batch with
    | None => {| shape := [1%nat; n]; data := data state |}
    | Some _ => state
    end in
  let r := QutritStateVector_init StatePrepBase_init is_abstract norm_is_one state ws in
  (n <> (3 ^ length ws)%nat ->
   r = Raise (ValueError
                "State vector must have shape (3**wires,) or (batch_size, 3**wires).")) /\
  (n = (3 ^ length ws)%nat -> is_abstract param = false -> norm_is_one param = false ->
   r = Raise (ValueError "Sum of amplitudes-squared does not equal one.")) /\
  (n = (3 ^ length ws)%nat -> is_abstract param = true \/ norm_is_one param = true ->
   r = Ok {| qsv_parameters := state; qsv_wires := ws |}) /\
  (forall op, r = Ok op -> well_formed state -> batch <> Some 0%nat ->
   QutritStateVector_state_vector op None
   = Ok {| shape := state_vector_shape (length ws) batch; data := data state |}).
Proof.
  intros Hshape Hbase param r.
  assert (Hr : r = if negb (n =? 3 ^ length ws)%nat
                   then Raise (ValueError
                     "State vector must have shape (3**wires,) or (batch_size, 3**wires).")
                   else if negb (is_abstract param)
                        then if negb (norm_is_one param)
                             then Raise (ValueError
                                           "Sum of amplitudes-squared does not equal one.")
                             else Ok {| qsv_parameters := state; qsv_wires := ws |}
                        else Ok {| qsv_parameters := state; qsv_wires := ws |}).
  { subst r param. unfold QutritStateVector_init. rewrite Hbase. cbn.
    rewrite Hshape. destruct batch as [b |]; cbn; rewrite ?Hshape; reflexivity. }
  rewrite Hr. clear Hr.
  destruct (Nat.eqb_spec n (3 ^ length ws)) as [Hn | Hn]; cbn [negb].
  - split; [tauto |]. split; [intros _ -> ->; reflexivity |]. split.
    + intros _ [-> | Hnorm]; [reflexivity |].
      destruct (is_abstract param); [reflexivity |]. rewrite Hnorm. reflexivity.
    + intros op Hop Hwf Hb.
      assert (Hop' : op = {| qsv_parameters := state; qsv_wires := ws |}).
      { destruct (is_abstract param); cbn [negb] in Hop; [congruence |].
        destruct (norm_is_one param); cbn [negb] in Hop; congruence. }
      subst op. unfold QutritStateVector_state_vector. cbn [qsv_wires qsv_parameters].
      rewrite (state_vector_reshape state ws batch); [reflexivity | | exact Hwf | exact Hb].
      rewrite Hshape, Hn. reflexivity.
  - split; [intros _; reflexivity |]. split; [tauto |]. split; [tauto |].
    intros op Hop. discriminate.
Qed.

Lemma amplitude_vector_constructor_witness :
  QutritStateVector_init (fun _ (_ : list nat) => Ok tt) (fun _ => false) (fun _ => true)
    {| shape := [8%nat]; data := replicate 8 Cx.zero |} [0%nat; 1%nat]
  = Raise (ValueError
             "State vector must have shape (3**wires,) or (batch_size, 3**wires).") /\
  QutritStateVector_init (fun _ (_ : list nat) => Ok tt) (fun _ => false) (fun _ => false)
    {| shape := [3%nat]; data := [Cx.one; Cx.one; Cx.zero] |} [0%nat]
  = Raise (ValueError "Sum of amplitudes-squared does not equal one.") /\
  QutritStateVector_state_vector
    {| qsv_parameters := {| shape := [3%nat]; data := [Cx.zero; Cx.one; Cx.zero] |};
       qsv_wires := [0%nat] |} None
  = Ok {| shape := [3%nat]; data := [Cx.zero; Cx.one; Cx.zero] |}.
Proof.
  split; [| split].
  - refine (proj1 (amplitude_vector_constructor (fun _ (_ : list nat) => Ok tt)
                     (fun _ => false) (fun _ => true)
                     {| shape := [8%nat]; data := replicate 8 Cx.zero |}
                     [0%nat; 1%nat] 8 None eq_refl eq_refl) _).
    cbn. lia.
  - exact (proj1 (proj2 (amplitude_vector_constructor (fun _ (_ : list nat) => Ok tt)
                           (fun _ => false) (fun _ => false)
                           {| shape := [3%nat]; data := [Cx.one; Cx.one; Cx.zero] |}
                           [0%nat] 3 None eq_refl eq_refl)) eq_refl eq_refl eq_refl).
  - refine (proj2 (proj2 (proj2 (amplitude_vector_constructor
                                   (fun _ (_ : list nat) => Ok tt)
                                   (fun _ => false) (fun _ => true)
                                   {| shape := [3%nat];
                                      data := [Cx.zero; Cx.one; Cx.zero] |}
                                   [0%nat] 3 None eq_refl eq_refl))) _ eq_refl eq_refl _).
    discriminate.
Defined.

(** ** Hadamard conjugation *)

(** X22. For every valid subspace, the [TH] matrix times the [TX] matrix
    times the [TH] matrix is the [TZ] matrix of the subspace listed in
    ascending order, the one with [-1] at the larger trit. *)
Theorem hadamard_conjugates_X_to_Z (a b : Z) :
  valid_subspace a b ->
  exists h x z,
    TH_compute_matrix (Some (PySeq [a; b])) = Ok h /\
    TX_compute_matrix (Some (PySeq [a; b])) = Ok x /\
    TZ_compute_matrix (Some (PySeq [Z.min a b; Z.max a b])) = Ok z /\
    np.matmul h (np.matmul (as_complex Cx.of_R x) h) = as_complex Cx.of_R z.
Proof.
  intros Hv. pose proof sqrt2_sq as Hr.
  assert (Hpos : (0 < sqrt 2)%R) by (apply sqrt_lt_R0; lra).
  by_subspace_cases Hv; do 3 eexists;
    (split; [reflexivity |]); (split; [reflexivity |]); (split; [reflexivity |]);
    unfold_arrays; revert Hr Hpos; generalize (sqrt 2); intros r Hr Hpos;
    assert (Hinv : (/ r = r / 2)%R)
      by (apply (Rmult_eq_reg_l r); [field_simplify; [lra | lra] | lra]);
    unfold Rdiv; rewrite ?Hinv; entrywise ltac:(by_square Hr).
Qed.

Lemma hadamard_conjugates_X_to_Z_witness :
  exists h x z,
    TH_compute_matrix (Some (PySeq [2; 1]%Z)) = Ok h /\
    TX_compute_matrix (Some (PySeq [2; 1]%Z)) = Ok x /\
    TZ_compute_matrix (Some (PySeq [1; 2]%Z)) = Ok z /\
    np.matmul h (np.matmul (as_complex Cx.of_R x) h) = as_complex Cx.of_R z.
Proof.
  assert (H21 : valid_subspace 2 1) by (unfold valid_subspace, trit; lia).
  exact (hadamard_conjugates_X_to_Z 2 1 H21).
Defined.
